(** * QuantumOracle (TP6-AA-multiple-unknown-winners/oracle.py)

    A shallow embedding of the class [QuantumOracle] and of the Python
    library functions its three methods call, followed by the properties
    of the specification that were checked against it.

    Conventions.
    - A Python [str] is a [string]; characters with code 128 or more stand
      for code points outside ASCII.  A Python [bytes] is a [list ascii].
    - A Python [int] is a [Z]; the qubit count, documented as a "number of
      qubits", is a [nat].
    - A raised exception is the left injection of a sum, named by its
      Python class. *)

From Stdlib Require Import ZArith NArith List Bool Ascii String Lia.
Import ListNotations.
Local Open Scope string_scope.
Local Open Scope Z_scope.

(** ** Exceptions *)

(** The exception classes the constructor and the methods can let escape. *)
Inductive exn : Type :=
| OSError            (* open(): missing or unreadable file *)
| JSONDecodeError    (* json.load(): text that is not JSON *)
| KeyError           (* data[...] on a dict without the key *)
| TypeError          (* subscripting, iterating or decoding a wrong type *)
| ValueError         (* int(): not an integer literal; non-ASCII Base64 text *)
| BinasciiError      (* binascii.Error from base64.b64decode *)
| UnicodeDecodeError (* bytes.decode("utf-8"); reading a file not text *)
| IndexError.        (* list index out of range *)


Definition result (A : Type) : Type := (exn + A)%type.

Definition bind {A B : Type} (r : result A) (k : A -> result B) : result B :=
  match r with
  | inl e => inl e
  | inr a => k a
  end.

Notation "x <- r ;; k" := (bind r (fun x => k))
  (at level 61, r at next level, right associativity).

(** A list comprehension [[f(x) for x in xs]] whose body can raise: the
    first exception, in list order, escapes. *)
Fixpoint comprehension {A B : Type} (f : A -> result B) (xs : list A)
  : result (list B) :=
  match xs with
  | [] => inr []
  | x :: xs' =>
      y <- f x ;;
      ys <- comprehension f xs' ;;
      inr (y :: ys)
  end.

(** ** Python strings *)

Definition char_code (c : ascii) : N := N_of_ascii c.

(** [s[k:]] for a non-negative [k]. *)
Fixpoint slice_from (k : nat) (s : string) : string :=
  match k, s with
  | O, _ => s
  | S k', EmptyString => EmptyString
  | S k', String _ s' => slice_from k' s'
  end.

(** ["0" * k]. *)
Fixpoint zeros (k : nat) : string :=
  match k with
  | O => EmptyString
  | S k' => String "0" (zeros k')
  end.

(** [str.zfill(width)]: the string is returned as it is when it already has
    [width] characters or more; otherwise zeros are put on its left, after
    a leading sign if there is one. *)
Definition zfill (width : nat) (s : string) : string :=
  if (width <=? String.length s)%nat then s
  else
    let fill := zeros (width - String.length s) in
    match s with
    | String c s' =>
        if (Ascii.eqb c "+" || Ascii.eqb c "-")%bool
        then String c (fill ++ s')
        else fill ++ s
    | EmptyString => fill
    end.

(** ["".join(parts)]. *)
Definition join (parts : list string) : string :=
  fold_right String.append EmptyString parts.

(** [needle in haystack] for a list of strings. *)
Definition contains (haystack : list string) (needle : string) : bool :=
  existsb (String.eqb needle) haystack.

(** ** bin() and str() *)

(** The binary digits of a positive number, most significant first, in
    front of [acc]. *)
Fixpoint bin_digits_pos (p : positive) (acc : string) : string :=
  match p with
  | xH => String "1" acc
  | xO p' => bin_digits_pos p' (String "0" acc)
  | xI p' => bin_digits_pos p' (String "1" acc)
  end.

Definition bin_digits (n : N) : string :=
  match n with
  | N0 => "0"
  | Npos p => bin_digits_pos p EmptyString
  end.

(** [bin(v)]: a minus sign for a negative number, then [0b], then the
    binary digits of the absolute value. *)
Definition bin (v : Z) : string :=
  (if v <? 0 then "-" else "") ++ "0b" ++ bin_digits (Z.abs_N v).

Definition digit_char (d : N) : ascii := ascii_of_N (48 + d).

(** The decimal digits of [n], most significant first, in front of [acc];
    [fuel] bounds the number of digits. *)
Fixpoint dec_digits (fuel : nat) (n : N) (acc : string) : string :=
  match fuel with
  | O => acc
  | S fuel' =>
      let acc' := String (digit_char (n mod 10)) acc in
      if (n / 10 =? 0)%N then acc'
      else dec_digits fuel' (n / 10) acc'
  end.

(** [str(v)] for an [int]. *)
Definition str (v : Z) : string :=
  (if v <? 0 then "-" else "")
  ++ dec_digits (S (N.to_nat (N.log2 (Z.abs_N v)))) (Z.abs_N v) EmptyString.

(** ** int() *)

(** The ASCII characters [str.isspace] accepts. *)
Definition is_space (c : ascii) : bool :=
  let n := char_code c in
  ((9 <=? n) && (n <=? 13) || (28 <=? n) && (n <=? 32))%N%bool.

Definition digit_value (c : ascii) : option N :=
  let n := char_code c in
  if ((48 <=? n) && (n <=? 57))%N%bool then Some (n - 48)%N else None.

Fixpoint skip_spaces (s : string) : string :=
  match s with
  | String c s' => if is_space c then skip_spaces s' else s
  | EmptyString => EmptyString
  end.

(** The digits of a literal after its first digit, the value read so far
    being [acc]: digits, each optionally preceded by one underscore, then
    trailing white space to the end of the text. *)
Fixpoint int_digits (acc : N) (s : string) : option N :=
  match s with
  | EmptyString => Some acc
  | String c s' =>
      match digit_value c with
      | Some d => int_digits (10 * acc + d) s'
      | None =>
          if Ascii.eqb c "_" then
            match s' with
            | String c' s'' =>
                match digit_value c' with
                | Some d => int_digits (10 * acc + d) s''
                | None => None
                end
            | EmptyString => None
            end
          else
            match skip_spaces s with
            | EmptyString => Some acc
            | String _ _ => None
            end
      end
  end.

Definition int_magnitude (s : string) : option N :=
  match s with
  | String c s' =>
      match digit_value c with
      | Some d => int_digits d s'
      | None => None
      end
  | EmptyString => None
  end.

(** [int(s)] for a [str] in base ten: surrounding white space, an optional
    sign, decimal digits with single underscores allowed between them.
    Anything else raises [ValueError].  The interpreter's configurable
    limit on the number of digits of a literal is not modelled. *)
Definition int (s : string) : result Z :=
  match skip_spaces s with
  | String c s' =>
      if Ascii.eqb c "-" then
        match int_magnitude s' with
        | Some n => inr (- Z.of_N n)
        | None => inl ValueError
        end
      else if Ascii.eqb c "+" then
        match int_magnitude s' with
        | Some n => inr (Z.of_N n)
        | None => inl ValueError
        end
      else
        match int_magnitude (String c s') with
        | Some n => inr (Z.of_N n)
        | None => inl ValueError
        end
  | EmptyString => inl ValueError
  end.

(** ** base64.b64decode and bytes.decode *)

(** [table_a2b_base64] of CPython's binascii module: the six-bit value of
    a character of the Base64 alphabet, [None] for every other one. *)
Definition table_a2b_base64 (c : ascii) : option N :=
  let n := char_code c in
  if ((65 <=? n) && (n <=? 90))%N%bool then Some (n - 65)%N
  else if ((97 <=? n) && (n <=? 122))%N%bool then Some (n - 71)%N
  else if ((48 <=? n) && (n <=? 57))%N%bool then Some (n + 4)%N
  else if (n =? 43)%N then Some 62%N
  else if (n =? 47)%N then Some 63%N
  else None.

(** [table_b2a_base64]: the character of a six-bit value. *)
Definition table_b2a_base64 (v : N) : ascii :=
  if (v <? 26)%N then ascii_of_N (v + 65)
  else if (v <? 52)%N then ascii_of_N (v + 71)
  else if (v <? 62)%N then ascii_of_N (v - 4)
  else if (v =? 62)%N then "+"%char
  else "/"%char.

(** The loop of [binascii.a2b_base64] without strict mode, which is what
    [base64.b64decode(s)] runs with its default [validate=False].
    [quad_pos] counts the data characters of the current group of four,
    [leftchar] holds the bits not yet written, [pads] the padding
    characters just seen and [out] the bytes written, last first.
    Characters outside the alphabet are skipped; a padding character that
    completes a group ends the decoding; input that ends inside a group
    raises [binascii.Error]. *)
Fixpoint a2b_base64_loop (s : string) (quad_pos : nat) (leftchar : N)
    (pads : nat) (out : list ascii) : result (list ascii) :=
  match s with
  | EmptyString =>
      match quad_pos with
      | O => inr (rev out)
      | _ => inl BinasciiError
      end
  | String c s' =>
      if Ascii.eqb c "=" then
        if (2 <=? quad_pos)%nat then
          if (4 <=? quad_pos + S pads)%nat then inr (rev out)
          else a2b_base64_loop s' quad_pos leftchar (S pads) out
        else a2b_base64_loop s' quad_pos leftchar pads out
      else
        match table_a2b_base64 c with
        | None => a2b_base64_loop s' quad_pos leftchar pads out
        | Some this_ch =>
            match quad_pos with
            | 0%nat => a2b_base64_loop s' 1 this_ch 0 out
            | 1%nat =>
                a2b_base64_loop s' 2 (N.land this_ch 15) 0
                  (ascii_of_N (N.lor (N.shiftl leftchar 2)
                                     (N.shiftr this_ch 4)) :: out)
            | 2%nat =>
                a2b_base64_loop s' 3 (N.land this_ch 3) 0
                  (ascii_of_N (N.lor (N.shiftl leftchar 4)
                                     (N.shiftr this_ch 2)) :: out)
            | _ =>
                a2b_base64_loop s' 0 0 0
                  (ascii_of_N (N.lor (N.shiftl leftchar 6) this_ch) :: out)
            end
        end
  end.

Definition is_ascii (c : ascii) : bool := (char_code c <? 128)%N.

Fixpoint all_ascii (s : string) : bool :=
  match s with
  | EmptyString => true
  | String c s' => is_ascii c && all_ascii s'
  end.

(** [base64.b64decode(s)] for a [str]: the text is first encoded as ASCII,
    which raises [ValueError] on any other character. *)
Definition b64decode (s : string) : result (list ascii) :=
  if all_ascii s then a2b_base64_loop s 0 0 0 [] else inl ValueError.

(** [base64.b64encode(data)], RFC 4648 with padding: the encoding the
    configuration file is written with. *)
Fixpoint b64encode (data : list ascii) : string :=
  match data with
  | [] => EmptyString
  | [a] =>
      let a := char_code a in
      String (table_b2a_base64 (N.shiftr a 2))
        (String (table_b2a_base64 (N.shiftl (N.land a 3) 4)) "==")
  | [a; b] =>
      let a := char_code a in
      let b := char_code b in
      String (table_b2a_base64 (N.shiftr a 2))
        (String (table_b2a_base64
                   (N.lor (N.shiftl (N.land a 3) 4) (N.shiftr b 4)))
           (String (table_b2a_base64 (N.shiftl (N.land b 15) 2)) "="))
  | a :: b :: c :: rest =>
      let a := char_code a in
      let b := char_code b in
      let c := char_code c in
      String (table_b2a_base64 (N.shiftr a 2))
        (String (table_b2a_base64
                   (N.lor (N.shiftl (N.land a 3) 4) (N.shiftr b 4)))
           (String (table_b2a_base64
                      (N.lor (N.shiftl (N.land b 15) 2) (N.shiftr c 6)))
              (String (table_b2a_base64 (N.land c 63))
                 (b64encode rest))))
  end.

(** [text.encode()] for a text of ASCII characters. *)
Definition encode (s : string) : list ascii := list_ascii_of_string s.

(** [payload.decode("utf-8")].  Bytes below 128 are the characters
    themselves.  The embedding has ASCII text only: a payload holding a
    byte of 128 or more is reported as [UnicodeDecodeError], which is what
    Python raises when the bytes are not well-formed UTF-8; well-formed
    text outside ASCII is left out of the model. *)
Definition decode (payload : list ascii) : result string :=
  if forallb is_ascii payload then inr (string_of_list_ascii payload)
  else inl UnicodeDecodeError.

(** ** The configuration file *)

#[local] Unset Elimination Schemes.

(** A document as [json.load] returns it.  An object is the list of the
    items of the resulting dict, whose keys are distinct. *)
Inductive json : Type :=
| JNull
| JBool (b : bool)
| JNumber (z : Z)
| JString (s : string)
| JArray (items : list json)
| JObject (members : list (string * json)).

#[local] Set Elimination Schemes.

(** What [open(config_file, "r")] followed by [json.load(f)] meets at a
    path: a file that cannot be opened, bytes that are not text in the
    encoding of the file, a text that is not JSON, or a document. *)
Inductive file : Type :=
| Unreadable
| Undecodable
| Malformed
| Document (data : json).

Definition filesystem : Type := string -> file.

Definition json_load (fs : filesystem) (config_file : string) : result json :=
  match fs config_file with
  | Unreadable => inl OSError
  | Undecodable => inl UnicodeDecodeError
  | Malformed => inl JSONDecodeError
  | Document data => inr data
  end.

Fixpoint lookup (key : string) (members : list (string * json))
  : option json :=
  match members with
  | [] => None
  | (k, v) :: rest => if String.eqb k key then Some v else lookup key rest
  end.

(** [data[key]] for a string [key]. *)
Definition subscript (data : json) (key : string) : result json :=
  match data with
  | JObject members =>
      match lookup key members with
      | Some v => inr v
      | None => inl KeyError
      end
  | _ => inl TypeError
  end.

Fixpoint characters (s : string) : list json :=
  match s with
  | EmptyString => []
  | String c s' => JString (String c EmptyString) :: characters s'
  end.

(** The items a [for] clause draws from a value: the elements of a list,
    the characters of a string, the keys of a dict; anything else is not
    iterable. *)
Definition iterate (v : json) : result (list json) :=
  match v with
  | JArray items => inr items
  | JString s => inr (characters s)
  | JObject members => inr (map (fun kv => JString (fst kv)) members)
  | _ => inl TypeError
  end.

(** ** The class *)

Definition wire : Type := Z.

Record QuantumOracle : Type := {
  input_registers : list wire;
  n_qubits : nat;
  marked_states : list string;
  solutions : list string
}.

(** [int(base64.b64decode(encoded_str).decode("utf-8"))]: the integer an
    entry of the configuration holds. *)
Definition decoded_int (encoded_str : json) : result Z :=
  match encoded_str with
  | JString s =>
      payload <- b64decode s ;;
      text <- decode payload ;;
      int text
  | _ => inl TypeError
  end.

(** [_decode_base64], with [self.n_qubits] as first argument. *)
Definition _decode_base64 (n_qubits : nat) (encoded_str : json)
  : result string :=
  v <- decoded_int encoded_str ;;
  inr (zfill n_qubits (slice_from 2 (bin v))).

(** [_load_config], with [self.n_qubits] as second argument. *)
Definition _load_config (fs : filesystem) (n_qubits : nat)
    (config_file : string) : result (list string * list string) :=
  data <- json_load fs config_file ;;
  states <- subscript data "marked_states" ;;
  states <- iterate states ;;
  marked_states <- comprehension (_decode_base64 n_qubits) states ;;
  sols <- subscript data "solutions" ;;
  sols <- iterate sols ;;
  solutions <- comprehension (_decode_base64 n_qubits) sols ;;
  inr (marked_states, solutions).

(** [QuantumOracle(input_registers, n_qubits, config_file)]: the new
    object, or the exception that escapes [__init__]. *)
Definition __init__ (fs : filesystem) (input_registers : list wire)
    (n_qubits : nat) (config_file : string) : result QuantumOracle :=
  loaded <- _load_config fs n_qubits config_file ;;
  inr {| input_registers := input_registers;
         n_qubits := n_qubits;
         marked_states := fst loaded;
         solutions := snd loaded |}.

(** ** Methods

    A method runs on the object and on the queue of the circuit being
    recorded: it reads attributes, appends operations, and can raise.
    The operators of the circuit library are recorded with the arguments
    they are given; what the library checks or computes from them is its
    own concern. *)

Inductive operation : Type :=
| Adder (k : Z) (x_wires : list wire) (modulus : Z)
| PauliX (wires : wire)
| PauliZ (wires : wire)
| ControlledQubitUnitary (base : operation) (control_wires : list wire).

Record context : Type := {
  self : QuantumOracle;
  queue : list operation
}.

Definition method (A : Type) : Type := context -> result A * context.

Definition ret {A : Type} (a : A) : method A := fun ctx => (inr a, ctx).

Definition raise {A : Type} (e : exn) : method A := fun ctx => (inl e, ctx).

Definition mbind {A B : Type} (m : method A) (k : A -> method B)
  : method B :=
  fun ctx =>
    match m ctx with
    | (inl e, ctx') => (inl e, ctx')
    | (inr a, ctx') => k a ctx'
    end.

Notation "x <~ m ;; k" := (mbind m (fun x => k))
  (at level 61, m at next level, right associativity).
Notation "m >> k" := (mbind m (fun _ => k))
  (at level 61, right associativity).

(** [self.attribute]. *)
Definition attr {A : Type} (attribute : QuantumOracle -> A) : method A :=
  fun ctx => (inr (attribute (self ctx)), ctx).

(** An operator constructed inside a recording context is appended to its
    queue. *)
Definition emit (op : operation) : method unit :=
  fun ctx => (inr tt, {| self := self ctx; queue := queue ctx ++ [op] |}).

Fixpoint for_each {A : Type} (xs : list A) (body : A -> method unit)
  : method unit :=
  match xs with
  | [] => ret tt
  | x :: xs' => body x >> for_each xs' body
  end.

Fixpoint enumerate_from (i : nat) (s : string) : list (nat * ascii) :=
  match s with
  | EmptyString => []
  | String c s' => (i, c) :: enumerate_from (S i) s'
  end.

(** [enumerate(state)]. *)
Definition enumerate (s : string) : list (nat * ascii) := enumerate_from 0 s.

(** [registers[i]] for [i >= 0]. *)
Definition item (registers : list wire) (i : nat) : method wire :=
  match nth_error registers i with
  | Some w => ret w
  | None => raise IndexError
  end.

(** [registers[-1]]. *)
Definition last_item (registers : list wire) : method wire :=
  match registers with
  | [] => raise IndexError
  | w :: rest => ret (last rest w)
  end.

(** The body of the loop of lines 59-61, repeated at lines 65-67: an X on
    wire [i] when the bit at position [i] is [0]. *)
Definition flip_bit (i_bit : nat * ascii) : method unit :=
  let (i, bit) := i_bit in
  if Ascii.eqb bit "0" then
    registers <~ attr input_registers ;;
    w <~ item registers i ;;
    emit (PauliX w)
  else ret tt.

Definition flip_zeros (state : string) : method unit :=
  for_each (enumerate state) flip_bit.

(** The body of the loop of lines 57-67.  The Pauli-Z handed to
    [ControlledQubitUnitary] is its base: it is recorded as part of the
    controlled operation. *)
Definition mark_state (state : string) : method unit :=
  flip_zeros state >>
  registers <~ attr input_registers ;;
  target <~ last_item registers ;;
  emit (ControlledQubitUnitary (PauliZ target) (removelast registers)) >>
  flip_zeros state.

(** [apply_oracle]. *)
Definition apply_oracle : method unit :=
  registers <~ attr input_registers ;;
  n <~ attr n_qubits ;;
  emit (Adder 1 registers (2 ^ Z.of_nat n)) >>
  states <~ attr marked_states ;;
  for_each states mark_state >>
  registers <~ attr input_registers ;;
  n <~ attr n_qubits ;;
  emit (Adder (-1) registers (2 ^ Z.of_nat n)).

(** [is_solution]. *)
Definition is_solution (x : list Z) : method Z :=
  let binary_x := join (map (fun i => slice_from 2 (bin i)) x) in
  sols <~ attr solutions ;;
  ret (if contains sols binary_x then 1 else 0).

(** ** Definitions the statements use *)

(** A boolean check run on every number below a bound. *)
Definition below (bound : nat) : list N := map N.of_nat (seq 0 bound).

(** The two tables are inverse on a six-bit value, whose character is
    ASCII and is not the padding character. *)
Definition sextet_ok (v : N) : bool :=
  match table_a2b_base64 (table_b2a_base64 v) with
  | Some v' => (v' =? v)%N
  | None => false
  end
  && negb (Ascii.eqb (table_b2a_base64 v) "=")
  && is_ascii (table_b2a_base64 v).

(** The four sextets of three bytes, and the bytes read back from them. *)
Definition sextet1 (a : N) : N := N.shiftr a 2.
Definition sextet2 (a b : N) : N :=
  N.lor (N.shiftl (N.land a 3) 4) (N.shiftr b 4).
Definition sextet3 (b c : N) : N :=
  N.lor (N.shiftl (N.land b 15) 2) (N.shiftr c 6).
Definition sextet4 (c : N) : N := N.land c 63.

(** The facts on the bit fields of two bytes that the round trip uses. *)
Definition pair_ok (a b : N) : bool :=
  ((sextet1 a <? 64) && (sextet2 a b <? 64) && (sextet3 a b <? 64)
   && (sextet4 a <? 64)
   && (N.lor (N.shiftl (sextet1 a) 2) (N.shiftr (sextet2 a b) 4) =? a)
   && (N.land (sextet2 a b) 15 =? N.shiftr b 4)
   && (N.shiftr (sextet3 a b) 2 =? N.land a 15)
   && (N.land (sextet3 a b) 3 =? N.shiftr b 6)
   && (N.lor (N.shiftl (N.shiftr a 4) 4) (N.land a 15) =? a)
   && (N.lor (N.shiftl (N.shiftr a 6) 6) (sextet4 a) =? a))%N.

(** The text matches [[0-9]*]. *)
Fixpoint all_digits (s : string) : bool :=
  match s with
  | EmptyString => true
  | String c s' =>
      match digit_value c with
      | Some _ => all_digits s'
      | None => false
      end
  end.

Definition is_bit (c : ascii) : bool := Ascii.eqb c "0" || Ascii.eqb c "1".

(** The text matches [[01]*]. *)
Fixpoint all_bits (s : string) : bool :=
  match s with
  | EmptyString => true
  | String c s' => is_bit c && all_bits s'
  end.

(** The number a text of binary digits denotes, [a] being the number read
    so far. *)
Fixpoint binary_value_from (a : N) (s : string) : N :=
  match s with
  | EmptyString => a
  | String c s' =>
      binary_value_from (2 * a + (if Ascii.eqb c "1" then 1 else 0)) s'
  end.

Definition binary_value (s : string) : N := binary_value_from 0 s.

(** The number left-padded with zeros to [width] digits, as the
    specification words it; a number with more digits is kept whole. *)
Definition padded (width : nat) (v : Z) : string :=
  zeros (width - String.length (bin_digits (Z.abs_N v)))
  ++ bin_digits (Z.abs_N v).

(** The entry a configuration file holds for the number [v]. *)
Definition entry (v : Z) : json := JString (b64encode (encode (str v))).

(** The document of a configuration file with these Base64 strings. *)
Definition config (marked sols : list string) : json :=
  JObject [("marked_states", JArray (map JString marked));
           ("solutions", JArray (map JString sols))].

(** A few files: [Mw==], [NQ==] and [NA==] are the Base64 of the texts
    [3], [5] and [4]; [M!w==] is [Mw==] with a character that is not of
    the alphabet. *)
Definition example_fs : filesystem :=
  fun path =>
    if String.eqb path "oracle.json" then Document (config ["Mw=="] ["Mw=="])
    else if String.eqb path "wide.json" then Document (config ["NQ=="] ["Mw=="])
    else if String.eqb path "four.json" then Document (config ["NA=="] ["Mw=="])
    else if String.eqb path "lenient.json"
         then Document (config ["M!w=="] ["Mw=="])
    else if String.eqb path "empty.json" then Document (config [] ["Mw=="])
    else if String.eqb path "broken.json" then Malformed
    else Unreadable.

(** The entry [e] decodes to the non-negative integer [v]. *)
Definition nonneg_entry (e : json) (v : Z) : Prop :=
  decoded_int e = inr v /\ 0 <= v.

(** The context after [ops] have been recorded. *)
Definition queued (ctx : context) (ops : list operation) : context :=
  {| self := self ctx; queue := queue ctx ++ ops |}.

(** The wires whose bit in [state] is [0], wire [i] standing for the
    character [i]. *)
Fixpoint zero_wires (registers : list wire) (state : string) {struct state}
  : list wire :=
  match state, registers with
  | String bit state', w :: registers' =>
      if Ascii.eqb bit "0" then w :: zero_wires registers' state'
      else zero_wires registers' state'
  | _, _ => []
  end.


(** The X gates of a state: one on each wire whose bit is [0]. *)
Definition x_mask (registers : list wire) (state : string)
  : list operation :=
  map PauliX (zero_wires registers state).

(** The phase flip: Pauli-Z on the last wire, controlled on the others. *)
Definition controlled_z (registers : list wire) : operation :=
  ControlledQubitUnitary (PauliZ (last registers 0)) (removelast registers).

(** The operations of one marked state: mask, phase flip, mask. *)
Definition state_ops (registers : list wire) (state : string)
  : list operation :=
  x_mask registers state ++ controlled_z registers :: x_mask registers state.

(** The operations of one call: increment, the marked states in order,
    decrement. *)
Definition oracle_ops (o : QuantumOracle) : list operation :=
  Adder 1 (input_registers o) (2 ^ Z.of_nat (n_qubits o))
  :: flat_map (state_ops (input_registers o)) (marked_states o)
  ++ [Adder (-1) (input_registers o) (2 ^ Z.of_nat (n_qubits o))].

(** Every marked state has a wire for each of its characters. *)
Definition fits (o : QuantumOracle) : Prop :=
  Forall (fun state =>
            (String.length state <= List.length (input_registers o))%nat)
         (marked_states o).

(** An oracle on two wires with one [0] in each marked state. *)
Definition example_oracle : QuantumOracle :=
  {| input_registers := [0; 1]; n_qubits := 2;
     marked_states := ["10"; "01"]; solutions := ["11"] |}.

(** A method that leaves the object as it is and only appends to the
    queue, whether it returns or raises. *)
Definition appends_only {A : Type} (m : method A) : Prop :=
  forall ctx : context, exists ops, snd (m ctx) = queued ctx ops.

(** ** Definitions the further properties use *)

(** More files: a document that is not an object, objects that lack a
    key, an entry that is a number after one that decodes, and a string
    where a list is expected. *)
Definition shapes_fs : filesystem :=
  fun path =>
    if String.eqb path "array.json" then Document (JArray [])
    else if String.eqb path "nomarked.json"
         then Document (JObject [("solutions", JArray [JString "Mw=="])])
    else if String.eqb path "nosolutions.json"
         then Document (JObject [("marked_states", JArray [JString "Mw=="])])
    else if String.eqb path "number.json"
         then Document (JObject [("marked_states",
                                  JArray [JString "Mw=="; JNumber 3;
                                          JString "Mw"])])
    else if String.eqb path "text.json"
         then Document (JObject [("marked_states", JString "Mw==");
                                 ("solutions", JArray [])])
    else if String.eqb path "spaced.json"
         then Document (config ["M w = ="] ["Mw=="])
    else Unreadable.

(** [bin(v)[2:]] for a negative [v]: the letter of the prefix, then the
    digits of the absolute value. *)
Definition negative_text (v : Z) : string :=
  String "b" (bin_digits (Z.abs_N v)).

(** The number a list of measured bits denotes, first bit most
    significant, [a] being the number read so far. *)
Definition bits_value_from (a : Z) (x : list Z) : Z :=
  fold_left (fun acc b => 2 * acc + b) x a.

Definition bits_value (x : list Z) : Z := bits_value_from 0 x.

(** Every element is 0 or 1. *)
Definition bit_list (x : list Z) : Prop :=
  Forall (fun b => b = 0 \/ b = 1) x.

(** The text [is_solution] looks up: the concatenation of [bin(i)[2:]]. *)
Definition binary_text (x : list Z) : string :=
  join (map (fun i => slice_from 2 (bin i)) x).

(** No [0] of the state stands at a position past the first [k]. *)
Fixpoint zeros_within (k : nat) (state : string) : bool :=
  match state with
  | EmptyString => true
  | String bit state' =>
      match k with
      | O => negb (Ascii.eqb bit "0") && zeros_within 0 state'
      | S k' => zeros_within k' state'
      end
  end.




(** The wires an operation acts on. *)
Fixpoint op_wires (op : operation) : list wire :=
  match op with
  | Adder _ x_wires _ => x_wires
  | PauliX w => [w]
  | PauliZ w => [w]
  | ControlledQubitUnitary base control_wires =>
      control_wires ++ op_wires base
  end.

(** * Properties *)

(** ** The library functions on examples *)

Example bin_5 : bin 5 = "0b101".
Proof. reflexivity. Qed.

Example bin_neg5 : slice_from 2 (bin (-5)) = "b101".
Proof. reflexivity. Qed.

Example str_1203 : str 1203 = "1203".
Proof. reflexivity. Qed.

Example str_neg7 : str (-7) = "-7".
Proof. reflexivity. Qed.

Example str_0 : str 0 = "0".
Proof. reflexivity. Qed.

Example int_spaces : int "  +1_000 " = inr 1000.
Proof. reflexivity. Qed.

Example int_bad : int "1__0" = inl ValueError.
Proof. reflexivity. Qed.

Example int_bad2 : int "- 3" = inl ValueError.
Proof. reflexivity. Qed.

Example int_bad3 : int "3 4" = inl ValueError.
Proof. reflexivity. Qed.

Example zfill_pad : zfill 4 "11" = "0011".
Proof. reflexivity. Qed.

Example zfill_wide : zfill 2 "101" = "101".
Proof. reflexivity. Qed.

Example b64encode_3 : b64encode (encode "3") = "Mw==".
Proof. reflexivity. Qed.

Example b64decode_3 : b64decode "Mw==" = inr (encode "3").
Proof. reflexivity. Qed.

Example b64encode_12 : b64encode (encode "12") = "MTI=".
Proof. reflexivity. Qed.

Example b64encode_123 : b64encode (encode "123") = "MTIz".
Proof. reflexivity. Qed.

Example b64decode_skip : b64decode "M!w==" = inr (encode "3").
Proof. reflexivity. Qed.

Example b64decode_short : b64decode "Mw" = inl BinasciiError.
Proof. reflexivity. Qed.

Example b64decode_one : b64decode "M" = inl BinasciiError.
Proof. reflexivity. Qed.

(** ** Base64 round trip *)

Lemma below_In (bound : nat) (x : N) :
  (x < N.of_nat bound)%N -> In x (below bound).
Proof.
  intros H. unfold below. apply in_map_iff.
  exists (N.to_nat x). split; [apply N2Nat.id|].
  apply in_seq. lia.
Qed.

Lemma check_below (bound : nat) (P : N -> bool) :
  forallb P (below bound) = true ->
  forall x, (x < N.of_nat bound)%N -> P x = true.
Proof.
  intros H x Hx. rewrite forallb_forall in H. apply H, below_In, Hx.
Qed.

Lemma check_below2 (bound : nat) (P : N -> N -> bool) :
  forallb (fun a => forallb (P a) (below bound)) (below bound) = true ->
  forall a b, (a < N.of_nat bound)%N -> (b < N.of_nat bound)%N ->
              P a b = true.
Proof.
  intros H a b Ha Hb.
  apply (check_below bound (P a)); [|exact Hb].
  apply (check_below bound (fun a => forallb (P a) (below bound)) H a Ha).
Qed.

Lemma char_code_byte (c : ascii) : (char_code c < N.of_nat 256)%N.
Proof. unfold char_code. apply N_ascii_bounded. Qed.

Lemma ascii_of_char_code (c : ascii) : ascii_of_N (char_code c) = c.
Proof. apply ascii_N_embedding. Qed.

Lemma sextet_table (v : N) :
  (v < 64)%N ->
  table_a2b_base64 (table_b2a_base64 v) = Some v
  /\ Ascii.eqb (table_b2a_base64 v) "=" = false
  /\ is_ascii (table_b2a_base64 v) = true.
Proof.
  intros Hv.
  assert (H : sextet_ok v = true).
  { apply (check_below 64); [vm_compute; reflexivity | exact Hv]. }
  unfold sextet_ok in H.
  apply andb_true_iff in H as [H Hascii].
  apply andb_true_iff in H as [Htab Hpad].
  apply negb_true_iff in Hpad.
  destruct (table_a2b_base64 (table_b2a_base64 v)) as [v'|]; [|discriminate].
  apply N.eqb_eq in Htab. subst v'. auto.
Qed.

Lemma pair_table (a b : N) :
  (a < 256)%N -> (b < 256)%N ->
  ((sextet1 a < 64) /\ (sextet2 a b < 64) /\ (sextet3 a b < 64)
   /\ (sextet4 a < 64)
   /\ N.lor (N.shiftl (sextet1 a) 2) (N.shiftr (sextet2 a b) 4) = a
   /\ N.land (sextet2 a b) 15 = N.shiftr b 4
   /\ N.shiftr (sextet3 a b) 2 = N.land a 15
   /\ N.land (sextet3 a b) 3 = N.shiftr b 6
   /\ N.lor (N.shiftl (N.shiftr a 4) 4) (N.land a 15) = a
   /\ N.lor (N.shiftl (N.shiftr a 6) 6) (sextet4 a) = a)%N.
Proof.
  intros Ha Hb.
  assert (H : pair_ok a b = true).
  { apply (check_below2 256); [vm_compute; reflexivity | exact Ha | exact Hb]. }
  unfold pair_ok in H.
  repeat (apply andb_true_iff in H; destruct H as [H ?]).
  repeat match goal with
         | E : (_ <? _)%N = true |- _ => apply N.ltb_lt in E
         | E : (_ =? _)%N = true |- _ => apply N.eqb_eq in E
         end.
  repeat split; assumption.
Qed.

(** One pass of the decoding loop on a character of the alphabet. *)
Lemma loop_sextet (v : N) (s : string) (quad_pos : nat) (leftchar : N)
    (pads : nat) (out : list ascii) :
  (v < 64)%N ->
  a2b_base64_loop (String (table_b2a_base64 v) s) quad_pos leftchar pads out
  = match quad_pos with
    | 0%nat => a2b_base64_loop s 1 v 0 out
    | 1%nat =>
        a2b_base64_loop s 2 (N.land v 15) 0
          (ascii_of_N (N.lor (N.shiftl leftchar 2) (N.shiftr v 4)) :: out)
    | 2%nat =>
        a2b_base64_loop s 3 (N.land v 3) 0
          (ascii_of_N (N.lor (N.shiftl leftchar 4) (N.shiftr v 2)) :: out)
    | _ =>
        a2b_base64_loop s 0 0 0
          (ascii_of_N (N.lor (N.shiftl leftchar 6) v) :: out)
    end.
Proof.
  intros Hv. destruct (sextet_table v Hv) as (Htab & Hpad & _).
  cbn [a2b_base64_loop]. rewrite Hpad, Htab. reflexivity.
Qed.

(** Three bytes give four characters, which give the three bytes back. *)
Lemma loop_quad (a b c : ascii) (s : string) (out : list ascii) :
  a2b_base64_loop
    (String (table_b2a_base64 (sextet1 (char_code a)))
       (String (table_b2a_base64 (sextet2 (char_code a) (char_code b)))
          (String (table_b2a_base64 (sextet3 (char_code b) (char_code c)))
             (String (table_b2a_base64 (sextet4 (char_code c))) s))))
    0 0 0 out
  = a2b_base64_loop s 0 0 0 (c :: b :: a :: out).
Proof.
  pose proof (char_code_byte a) as Ha.
  pose proof (char_code_byte b) as Hb.
  pose proof (char_code_byte c) as Hc.
  change (N.of_nat 256) with 256%N in Ha, Hb, Hc.
  destruct (pair_table _ _ Ha Hb) as (A1 & A2 & _ & _ & A5 & A6 & _).
  destruct (pair_table _ _ Hb Hc)
    as (_ & _ & B3 & _ & _ & _ & B7 & B8 & B9 & _).
  destruct (pair_table _ _ Hc Hc) as (_ & _ & _ & C4 & _ & _ & _ & _ & _ & C10).
  rewrite (loop_sextet _ _ 0) by assumption.
  rewrite (loop_sextet _ _ 1) by assumption.
  rewrite (loop_sextet _ _ 2) by assumption.
  rewrite (loop_sextet _ _ 3) by assumption.
  rewrite A5, A6, B7, B9, B8, C10.
  rewrite !ascii_of_char_code. reflexivity.
Qed.

Lemma loop_tail1 (a : ascii) (out : list ascii) :
  a2b_base64_loop (b64encode [a]) 0 0 0 out = inr (rev (a :: out)).
Proof.
  pose proof (char_code_byte a) as Ha.
  change (N.of_nat 256) with 256%N in Ha.
  assert (H0 : (0 < 256)%N) by lia.
  destruct (pair_table _ _ Ha H0) as (A1 & A2 & _ & _ & A5 & _).
  cbn [b64encode].
  change (N.shiftr (char_code a) 2) with (sextet1 (char_code a)).
  replace (N.shiftl (N.land (char_code a) 3) 4)
    with (sextet2 (char_code a) 0)
    by (unfold sextet2; apply N.lor_0_r).
  rewrite (loop_sextet _ _ 0) by assumption.
  rewrite (loop_sextet _ _ 1) by assumption.
  rewrite A5, ascii_of_char_code. reflexivity.
Qed.

Lemma loop_tail2 (a b : ascii) (out : list ascii) :
  a2b_base64_loop (b64encode [a; b]) 0 0 0 out = inr (rev (b :: a :: out)).
Proof.
  pose proof (char_code_byte a) as Ha.
  pose proof (char_code_byte b) as Hb.
  change (N.of_nat 256) with 256%N in Ha, Hb.
  assert (H0 : (0 < 256)%N) by lia.
  destruct (pair_table _ _ Ha Hb) as (A1 & A2 & _ & _ & A5 & A6 & _).
  destruct (pair_table _ _ Hb H0) as (_ & _ & B3 & _ & _ & _ & B7 & _ & B9 & _).
  cbn [b64encode].
  change (N.shiftr (char_code a) 2) with (sextet1 (char_code a)).
  change (N.lor (N.shiftl (N.land (char_code a) 3) 4)
                (N.shiftr (char_code b) 4))
    with (sextet2 (char_code a) (char_code b)).
  replace (N.shiftl (N.land (char_code b) 15) 2)
    with (sextet3 (char_code b) 0)
    by (unfold sextet3; apply N.lor_0_r).
  rewrite (loop_sextet _ _ 0) by assumption.
  rewrite (loop_sextet _ _ 1) by assumption.
  rewrite (loop_sextet _ _ 2) by assumption.
  rewrite A5, A6, B7, B9, !ascii_of_char_code. reflexivity.
Qed.

(** Induction on a list of bytes three at a time. *)
Lemma triples_ind (P : list ascii -> Prop) :
  P [] -> (forall a, P [a]) -> (forall a b, P [a; b]) ->
  (forall a b c rest, P rest -> P (a :: b :: c :: rest)) ->
  forall data, P data.
Proof.
  intros H0 H1 H2 H3.
  fix IH 1. intros [|a [|b [|c rest]]];
    [apply H0 | apply H1 | apply H2 | apply H3, IH].
Qed.

Lemma loop_b64encode (data out : list ascii) :
  a2b_base64_loop (b64encode data) 0 0 0 out = inr (rev out ++ data)%list.
Proof.
  revert out. induction data as [|a|a b|a b c rest IH] using triples_ind;
    intros out.
  - cbn. now rewrite app_nil_r.
  - rewrite loop_tail1. cbn. reflexivity.
  - rewrite loop_tail2. cbn. now rewrite <- !app_assoc.
  - cbn [b64encode].
    change (N.shiftr (char_code a) 2) with (sextet1 (char_code a)).
    change (N.lor (N.shiftl (N.land (char_code a) 3) 4)
                  (N.shiftr (char_code b) 4))
      with (sextet2 (char_code a) (char_code b)).
    change (N.lor (N.shiftl (N.land (char_code b) 15) 2)
                  (N.shiftr (char_code c) 6))
      with (sextet3 (char_code b) (char_code c)).
    change (N.land (char_code c) 63) with (sextet4 (char_code c)).
    rewrite loop_quad, IH. cbn. now rewrite <- !app_assoc.
Qed.

Lemma all_ascii_b64encode (data : list ascii) :
  all_ascii (b64encode data) = true.
Proof.
  induction data as [|a|a b|a b c rest IH] using triples_ind.
  - reflexivity.
  - pose proof (char_code_byte a) as Ha.
    change (N.of_nat 256) with 256%N in Ha.
    assert (H0 : (0 < 256)%N) by lia.
    destruct (pair_table _ _ Ha H0) as (A1 & A2 & _).
    unfold sextet1 in A1. unfold sextet2 in A2. rewrite N.lor_0_r in A2.
    cbn [b64encode all_ascii].
    destruct (sextet_table _ A1) as (_ & _ & ->).
    destruct (sextet_table _ A2) as (_ & _ & ->). reflexivity.
  - pose proof (char_code_byte a) as Ha.
    pose proof (char_code_byte b) as Hb.
    change (N.of_nat 256) with 256%N in Ha, Hb.
    assert (H0 : (0 < 256)%N) by lia.
    destruct (pair_table _ _ Ha Hb) as (A1 & A2 & _).
    destruct (pair_table _ _ Hb H0) as (_ & _ & B3 & _).
    unfold sextet1 in A1. unfold sextet2 in A2.
    unfold sextet3 in B3. rewrite N.lor_0_r in B3.
    cbn [b64encode all_ascii].
    destruct (sextet_table _ A1) as (_ & _ & ->).
    destruct (sextet_table _ A2) as (_ & _ & ->).
    destruct (sextet_table _ B3) as (_ & _ & ->). reflexivity.
  - pose proof (char_code_byte a) as Ha.
    pose proof (char_code_byte b) as Hb.
    pose proof (char_code_byte c) as Hc.
    change (N.of_nat 256) with 256%N in Ha, Hb, Hc.
    destruct (pair_table _ _ Ha Hb) as (A1 & A2 & _).
    destruct (pair_table _ _ Hb Hc) as (_ & _ & B3 & _).
    destruct (pair_table _ _ Hc Hc) as (_ & _ & _ & C4 & _).
    unfold sextet1 in A1. unfold sextet2 in A2.
    unfold sextet3 in B3. unfold sextet4 in C4.
    cbn [b64encode all_ascii].
    destruct (sextet_table _ A1) as (_ & _ & ->).
    destruct (sextet_table _ A2) as (_ & _ & ->).
    destruct (sextet_table _ B3) as (_ & _ & ->).
    destruct (sextet_table _ C4) as (_ & _ & ->). exact IH.
Qed.

(** Decoding what [b64encode] wrote gives the bytes back. *)
Lemma b64decode_b64encode (data : list ascii) :
  b64decode (b64encode data) = inr data.
Proof.
  unfold b64decode. rewrite all_ascii_b64encode.
  apply (loop_b64encode data []).
Qed.

(** ** Decimal round trip *)

Lemma digit_value_digit_char (d : N) :
  (d < 10)%N -> digit_value (digit_char d) = Some d.
Proof.
  intros Hd.
  assert (H : match digit_value (digit_char d) with
              | Some d' => (d' =? d)%N
              | None => false
              end = true).
  { apply (check_below 10 (fun d => match digit_value (digit_char d) with
                                    | Some d' => (d' =? d)%N
                                    | None => false
                                    end));
      [vm_compute; reflexivity | exact Hd]. }
  destruct (digit_value (digit_char d)) as [d'|]; [|discriminate].
  apply N.eqb_eq in H. now subst.
Qed.

Lemma digit_value_props (c : ascii) (d : N) :
  digit_value c = Some d ->
  is_space c = false /\ Ascii.eqb c "-" = false /\ Ascii.eqb c "+" = false
  /\ Ascii.eqb c "_" = false /\ is_ascii c = true.
Proof.
  unfold digit_value, is_space, is_ascii. intros H.
  destruct ((48 <=? char_code c)%N && (char_code c <=? 57)%N) eqn:E;
    [|discriminate].
  apply andb_true_iff in E as [E1 E2].
  apply N.leb_le in E1. apply N.leb_le in E2.
  assert (Hne : forall k : N, (k < 48 \/ 57 < k)%N -> (k < 256)%N ->
                              Ascii.eqb c (ascii_of_N k) = false).
  { intros k Hk Hlt. apply Ascii.eqb_neq. intros ->.
    unfold char_code in E1, E2.
    rewrite N_ascii_embedding in E1, E2 by exact Hlt. lia. }
  repeat split.
  - apply orb_false_iff. split; apply andb_false_iff.
    + right. apply N.leb_gt. lia.
    + right. apply N.leb_gt. lia.
  - apply (Hne 45%N); lia.
  - apply (Hne 43%N); lia.
  - apply (Hne 95%N); lia.
  - apply N.ltb_lt. lia.
Qed.

Lemma dec_digits_all_digits (fuel : nat) (n : N) (acc : string) :
  all_digits acc = true -> all_digits (dec_digits fuel n acc) = true.
Proof.
  revert n acc. induction fuel as [|fuel IH]; intros n acc Hacc; [exact Hacc|].
  assert (Hd : all_digits (String (digit_char (n mod 10)) acc) = true).
  { cbn [all_digits]. rewrite digit_value_digit_char; [exact Hacc|].
    apply N.mod_lt. discriminate. }
  cbn [dec_digits]. destruct (n / 10 =? 0)%N; [exact Hd | apply IH, Hd].
Qed.

Lemma dec_digits_nonempty (fuel : nat) (n : N) (acc : string) :
  dec_digits (S fuel) n acc <> EmptyString.
Proof.
  assert (G : forall f m a,
             a <> EmptyString -> dec_digits f m a <> EmptyString).
  { induction f as [|f IH]; intros m a Ha; [exact Ha|].
    cbn [dec_digits]. destruct (m / 10 =? 0)%N; [discriminate|].
    apply IH. discriminate. }
  cbn [dec_digits]. destruct (n / 10 =? 0)%N; [discriminate|].
  apply G. discriminate.
Qed.

(** Reading the digits of [n] continues the number read so far. *)
Lemma int_digits_dec_digits (fuel : nat) :
  forall (n : N) (acc : string) (a : N),
    (n < 2 ^ N.of_nat fuel)%N ->
    exists k : N,
      int_digits a (dec_digits fuel n acc)
      = int_digits (a * 10 ^ k + n) acc.
Proof.
  induction fuel as [|fuel IH]; intros n acc a Hn.
  - exists 0%N. cbn [dec_digits]. f_equal.
    change (2 ^ N.of_nat 0)%N with 1%N in Hn. rewrite N.pow_0_r. lia.
  - cbn [dec_digits].
    assert (Hmod : (n mod 10 < 10)%N) by (apply N.mod_lt; discriminate).
    pose proof (N.div_mod n 10 ltac:(discriminate)) as Hdm.
    destruct (n / 10 =? 0)%N eqn:E.
    + apply N.eqb_eq in E. exists 1%N.
      cbn [int_digits]. rewrite digit_value_digit_char by exact Hmod.
      f_equal. rewrite N.pow_1_r. lia.
    + apply N.eqb_neq in E.
      destruct (IH (n / 10)%N (String (digit_char (n mod 10)) acc) a)
        as [k Hk].
      { rewrite Nat2N.inj_succ, N.pow_succ_r' in Hn.
        apply N.Div0.div_lt_upper_bound. lia. }
      exists (N.succ k). rewrite Hk.
      cbn [int_digits]. rewrite digit_value_digit_char by exact Hmod.
      f_equal. rewrite N.pow_succ_r'. lia.
Qed.

Lemma int_all_digits (s : string) (n : N) :
  all_digits s = true -> s <> EmptyString ->
  int_digits 0 s = Some n -> int s = inr (Z.of_N n).
Proof.
  intros Hall Hne Hval. destruct s as [|c s']; [congruence|].
  cbn [all_digits] in Hall.
  destruct (digit_value c) as [d|] eqn:Hd; [|discriminate].
  destruct (digit_value_props c d Hd) as (Hsp & Hminus & Hplus & _).
  unfold int. cbn [skip_spaces]. rewrite Hsp, Hminus, Hplus.
  cbn [int_magnitude]. cbn [int_digits] in Hval. rewrite Hd in *.
  rewrite N.mul_0_r, N.add_0_l in Hval. now rewrite Hval.
Qed.

Lemma abs_N_bound (v : Z) :
  (Z.abs_N v < 2 ^ N.of_nat (S (N.to_nat (N.log2 (Z.abs_N v)))))%N.
Proof.
  rewrite Nat2N.inj_succ, N2Nat.id.
  destruct (N.eq_dec (Z.abs_N v) 0) as [->|Hnz]; [reflexivity|].
  apply N.log2_spec. lia.
Qed.

(** [int(str(v))] is [v] for a non-negative [v]. *)
Lemma int_str (v : Z) : 0 <= v -> int (str v) = inr v.
Proof.
  intros Hv. unfold str.
  destruct (v <? 0) eqn:E; [apply Z.ltb_lt in E; lia|].
  cbn [String.append].
  replace v with (Z.of_N (Z.abs_N v)) at 3 by (rewrite N2Z.inj_abs_N; lia).
  apply int_all_digits.
  - now apply dec_digits_all_digits.
  - apply dec_digits_nonempty.
  - destruct (int_digits_dec_digits _ (Z.abs_N v) EmptyString 0 (abs_N_bound v))
      as [k Hk].
    rewrite Hk. cbn [int_digits]. f_equal; lia.
Qed.

Lemma all_digits_ascii (s : string) :
  all_digits s = true -> forallb is_ascii (encode s) = true.
Proof.
  induction s as [|c s IH]; intros H; [reflexivity|].
  cbn [all_digits] in H.
  destruct (digit_value c) as [d|] eqn:Hd; [|discriminate].
  destruct (digit_value_props c d Hd) as (_ & _ & _ & _ & Ha).
  unfold encode. cbn [list_ascii_of_string forallb].
  rewrite Ha. apply IH, H.
Qed.

(** The text of a non-negative number survives encoding and decoding. *)
Lemma decode_encode_str (v : Z) :
  0 <= v -> decode (encode (str v)) = inr (str v).
Proof.
  intros Hv. unfold decode. rewrite all_digits_ascii.
  - unfold encode. now rewrite string_of_list_ascii_of_string.
  - unfold str. destruct (v <? 0) eqn:E; [apply Z.ltb_lt in E; lia|].
    cbn [String.append]. now apply dec_digits_all_digits.
Qed.

(** An entry written as Base64(str(v)) decodes to [v]. *)
Lemma decoded_int_entry (v : Z) :
  0 <= v -> decoded_int (JString (b64encode (encode (str v)))) = inr v.
Proof.
  intros Hv. unfold decoded_int.
  rewrite b64decode_b64encode. cbn [bind].
  rewrite decode_encode_str by exact Hv. cbn [bind].
  apply int_str, Hv.
Qed.

(** ** Binary digits and padding *)

Lemma length_append (s t : string) :
  String.length (s ++ t) = (String.length s + String.length t)%nat.
Proof. induction s as [|c s IH]; cbn; [reflexivity | now rewrite IH]. Qed.

Lemma length_zeros (k : nat) : String.length (zeros k) = k.
Proof. induction k as [|k IH]; cbn; [reflexivity | now rewrite IH]. Qed.

Lemma all_bits_append (s t : string) :
  all_bits (s ++ t) = all_bits s && all_bits t.
Proof.
  induction s as [|c s IH]; cbn; [reflexivity|].
  now rewrite IH, andb_assoc.
Qed.

Lemma all_bits_zeros (k : nat) : all_bits (zeros k) = true.
Proof. induction k as [|k IH]; cbn; [reflexivity | exact IH]. Qed.

Lemma binary_value_zeros (k : nat) (s : string) :
  binary_value_from 0 (zeros k ++ s) = binary_value_from 0 s.
Proof. induction k as [|k IH]; cbn; [reflexivity | exact IH]. Qed.

Lemma bin_digits_pos_bits (p : positive) (acc : string) :
  all_bits (bin_digits_pos p acc) = all_bits acc.
Proof.
  revert acc. induction p as [p IH|p IH|]; intros acc; cbn;
    try rewrite IH; reflexivity.
Qed.

Lemma bin_digits_bits (n : N) : all_bits (bin_digits n) = true.
Proof. destruct n as [|p]; [reflexivity | apply bin_digits_pos_bits]. Qed.

Lemma bin_digits_pos_length (p : positive) (acc : string) :
  String.length (bin_digits_pos p acc)
  = (Pos.size_nat p + String.length acc)%nat.
Proof.
  revert acc. induction p as [p IH|p IH|]; intros acc; cbn;
    try rewrite IH; cbn; lia.
Qed.

Lemma size_nat_bound (p : positive) (k : nat) :
  Z.pos p < 2 ^ Z.of_nat k -> (Pos.size_nat p <= k)%nat.
Proof.
  revert k. induction p as [p IH|p IH|]; intros k Hk;
    (destruct k as [|k]; [cbn in Hk; lia|]);
    rewrite Nat2Z.inj_succ, Z.pow_succ_r in Hk by lia; cbn [Pos.size_nat].
  - apply le_n_S, IH. lia.
  - apply le_n_S, IH. lia.
  - lia.
Qed.

Lemma size_nat_exceeds (p : positive) (k : nat) :
  2 ^ Z.of_nat k <= Z.pos p -> (k < Pos.size_nat p)%nat.
Proof.
  revert k. induction p as [p IH|p IH|]; intros k Hk;
    (destruct k as [|k]; [cbn [Pos.size_nat]; lia|]);
    rewrite Nat2Z.inj_succ, Z.pow_succ_r in Hk by lia; cbn [Pos.size_nat].
  - apply -> Nat.succ_lt_mono. apply IH. lia.
  - apply -> Nat.succ_lt_mono. apply IH. lia.
  - assert (0 < 2 ^ Z.of_nat k) by (apply Z.pow_pos_nonneg; lia). lia.
Qed.

(** A number below [2 ^ k] has at most [k] binary digits, for [k >= 1]. *)
Lemma bin_digits_fits (v : Z) (k : nat) :
  0 <= v < 2 ^ Z.of_nat k -> (1 <= k)%nat ->
  (String.length (bin_digits (Z.abs_N v)) <= k)%nat.
Proof.
  intros [Hv Hlt] Hk. destruct v as [|p|p]; [exact Hk| |lia].
  cbn [Z.abs_N bin_digits]. rewrite bin_digits_pos_length. cbn.
  pose proof (size_nat_bound p k Hlt). lia.
Qed.

(** A number from [2 ^ k] on has more than [k] binary digits. *)
Lemma bin_digits_wide (v : Z) (k : nat) :
  2 ^ Z.of_nat k <= v -> (k < String.length (bin_digits (Z.abs_N v)))%nat.
Proof.
  intros Hv.
  assert (0 < 2 ^ Z.of_nat k) by (apply Z.pow_pos_nonneg; lia).
  destruct v as [|p|p]; [lia| |lia].
  cbn [Z.abs_N bin_digits]. rewrite bin_digits_pos_length. cbn.
  pose proof (size_nat_exceeds p k Hv). lia.
Qed.

Lemma binary_value_pos (p : positive) :
  forall (acc : string) (a : N),
  exists k : N,
    binary_value_from a (bin_digits_pos p acc)
    = binary_value_from (a * 2 ^ k + Npos p) acc.
Proof.
  induction p as [p IH|p IH|]; intros acc a.
  - destruct (IH (String "1" acc) a) as [k Hk]. exists (N.succ k).
    cbn [bin_digits_pos]. rewrite Hk. cbn [binary_value_from].
    f_equal. cbn [Ascii.eqb Bool.eqb]. rewrite N.pow_succ_r'. lia.
  - destruct (IH (String "0" acc) a) as [k Hk]. exists (N.succ k).
    cbn [bin_digits_pos]. rewrite Hk. cbn [binary_value_from].
    f_equal. cbn [Ascii.eqb Bool.eqb]. rewrite N.pow_succ_r'. lia.
  - exists 1%N. cbn [bin_digits_pos binary_value_from].
    f_equal. cbn [Ascii.eqb Bool.eqb]. rewrite N.pow_1_r. lia.
Qed.

(** The digits [bin] writes denote the number. *)
Lemma binary_value_bin_digits (n : N) : binary_value (bin_digits n) = n.
Proof.
  destruct n as [|p]; [reflexivity|].
  destruct (binary_value_pos p EmptyString 0) as [k Hk].
  unfold binary_value. cbn [bin_digits]. rewrite Hk. reflexivity.
Qed.

Lemma bin_digits_unsigned (n : N) :
  exists c s, bin_digits n = String c s
              /\ (Ascii.eqb c "+" || Ascii.eqb c "-") = false.
Proof.
  pose proof (bin_digits_bits n) as Hb.
  destruct (bin_digits n) as [|c s] eqn:E.
  - destruct n as [|p]; [discriminate|].
    cbn in E. pose proof (bin_digits_pos_length p EmptyString) as L.
    rewrite E in L. cbn in L. destruct p; cbn in L; lia.
  - exists c, s. split; [reflexivity|].
    cbn [all_bits] in Hb. apply andb_true_iff in Hb as [Hc _].
    unfold is_bit in Hc. apply orb_true_iff in Hc as [Hc|Hc];
      apply Ascii.eqb_eq in Hc; subst c; reflexivity.
Qed.

(** [bin(v)[2:]] is the digits of a non-negative [v]. *)
Lemma slice_bin (v : Z) :
  0 <= v -> slice_from 2 (bin v) = bin_digits (Z.abs_N v).
Proof.
  intros Hv. unfold bin.
  destruct (v <? 0) eqn:E; [apply Z.ltb_lt in E; lia | reflexivity].
Qed.

Lemma zfill_length (width : nat) (s : string) :
  String.length (zfill width s) = Nat.max width (String.length s).
Proof.
  unfold zfill. destruct (width <=? String.length s)%nat eqn:E.
  - apply Nat.leb_le in E. lia.
  - apply Nat.leb_gt in E. destruct s as [|c s].
    + rewrite length_zeros. cbn. lia.
    + destruct (Ascii.eqb c "+" || Ascii.eqb c "-"); cbn [String.length];
        rewrite length_append, length_zeros; cbn [String.length] in *; lia.
Qed.

(** On binary digits [zfill] is the padding of the specification. *)
Lemma zfill_bin_digits (width : nat) (v : Z) :
  zfill width (bin_digits (Z.abs_N v)) = padded width v.
Proof.
  unfold zfill, padded.
  destruct (bin_digits_unsigned (Z.abs_N v)) as (c & s & -> & Hsign).
  destruct (width <=? String.length (String c s))%nat eqn:E.
  - apply Nat.leb_le in E.
    replace (width - String.length (String c s))%nat with 0%nat by lia.
    reflexivity.
  - rewrite Hsign. reflexivity.
Qed.

Lemma decode_entry (n : nat) (entry : json) (v : Z) :
  decoded_int entry = inr v -> 0 <= v ->
  _decode_base64 n entry = inr (padded n v).
Proof.
  intros Hd Hv. unfold _decode_base64. rewrite Hd. cbn [bind].
  now rewrite slice_bin, zfill_bin_digits.
Qed.

Lemma padded_length (n : nat) (v : Z) :
  String.length (padded n v)
  = Nat.max n (String.length (bin_digits (Z.abs_N v))).
Proof. rewrite <- zfill_bin_digits. apply zfill_length. Qed.

Lemma padded_bits (n : nat) (v : Z) : all_bits (padded n v) = true.
Proof.
  unfold padded. now rewrite all_bits_append, all_bits_zeros, bin_digits_bits.
Qed.

Lemma padded_value (n : nat) (v : Z) :
  0 <= v -> Z.of_N (binary_value (padded n v)) = v.
Proof.
  intros Hv. unfold padded, binary_value. rewrite binary_value_zeros.
  fold (binary_value (bin_digits (Z.abs_N v))).
  rewrite binary_value_bin_digits, N2Z.inj_abs_N. lia.
Qed.

(** ** List comprehensions *)

Lemma comprehension_ok {A B : Type} (f : A -> result B) (xs : list A)
    (ys : list B) :
  comprehension f xs = inr ys <-> Forall2 (fun x y => f x = inr y) xs ys.
Proof.
  revert ys. induction xs as [|x xs IH]; intros ys; cbn [comprehension].
  - split; intros H; [injection H as <-; constructor|].
    inversion H. reflexivity.
  - unfold bind at 1. destruct (f x) as [e|y] eqn:Ex.
    + split; intros H; [discriminate|]. inversion H; congruence.
    + unfold bind at 1. destruct (comprehension f xs) as [e|ys'] eqn:Exs.
      * split; intros H; [discriminate|]. inversion H; subst.
        match goal with
        | F : Forall2 _ xs ?l |- _ => apply IH in F; discriminate
        end.
      * split; intros H.
        -- injection H as <-. constructor; [exact Ex | now apply IH].
        -- inversion H; subst.
           match goal with
           | F : Forall2 _ xs ?l |- _ => apply IH in F
           end.
           congruence.
Qed.

Lemma comprehension_map {A B : Type} (f : A -> result B) (g : A -> B)
    (xs : list A) :
  Forall (fun x => f x = inr (g x)) xs ->
  comprehension f xs = inr (map g xs).
Proof.
  intros H. apply comprehension_ok.
  induction H; cbn; constructor; assumption.
Qed.


Lemma comprehension_length {A B : Type} (f : A -> result B) (xs : list A)
    (ys : list B) :
  comprehension f xs = inr ys -> List.length ys = List.length xs.
Proof.
  intros H. apply comprehension_ok in H.
  induction H; cbn; [reflexivity | now f_equal].
Qed.

(** ** Construction *)

Lemma init_document (fs : filesystem) (regs : list wire) (n : nat)
    (path : string) (data : json) (ms ss : list json) :
  fs path = Document data ->
  subscript data "marked_states" = inr (JArray ms) ->
  subscript data "solutions" = inr (JArray ss) ->
  __init__ fs regs n path
  = (marked <- comprehension (_decode_base64 n) ms ;;
     sols <- comprehension (_decode_base64 n) ss ;;
     inr {| input_registers := regs; n_qubits := n;
            marked_states := marked; solutions := sols |}).
Proof.
  intros Hfs Hm Hs. unfold __init__, _load_config, json_load.
  rewrite Hfs. cbn [bind]. rewrite Hm. cbn [bind iterate].
  destruct (comprehension (_decode_base64 n) ms) as [e|marked];
    [reflexivity|].
  cbn [bind]. rewrite Hs. cbn [bind iterate].
  destruct (comprehension (_decode_base64 n) ss) as [e|sols]; reflexivity.
Qed.

Lemma comprehension_nonneg (n : nat) (es : list json) (vs : list Z) :
  Forall2 nonneg_entry es vs ->
  comprehension (_decode_base64 n) es = inr (map (padded n) vs)
  /\ Forall (fun v => 0 <= v) vs.
Proof.
  intros H. split.
  - apply comprehension_ok.
    induction H as [|e v es vs [Hd Hv] _ IH]; cbn; constructor;
      [now apply decode_entry | exact IH].
  - induction H as [|e v es vs [Hd Hv] _ IH]; constructor; assumption.
Qed.

Lemma Forall2_entry (vs : list Z) :
  Forall (fun v => 0 <= v) vs -> Forall2 nonneg_entry (map entry vs) vs.
Proof.
  induction 1 as [|v vs Hv _ IH]; cbn; constructor; [|exact IH].
  split; [now apply decoded_int_entry | exact Hv].
Qed.

Lemma init_nonneg (fs : filesystem) (regs : list wire) (n : nat)
    (path : string) (data : json) (ms ss : list json) (vm vs : list Z) :
  fs path = Document data ->
  subscript data "marked_states" = inr (JArray ms) ->
  subscript data "solutions" = inr (JArray ss) ->
  Forall2 nonneg_entry ms vm -> Forall2 nonneg_entry ss vs ->
  __init__ fs regs n path
  = inr {| input_registers := regs; n_qubits := n;
           marked_states := map (padded n) vm;
           solutions := map (padded n) vs |}.
Proof.
  intros Hfs Hm Hs Fm Fs.
  rewrite (init_document fs regs n path data ms ss Hfs Hm Hs).
  destruct (comprehension_nonneg n ms vm Fm) as [-> _].
  destruct (comprehension_nonneg n ss vs Fs) as [-> _]. reflexivity.
Qed.

(** C1, as stated, fails: the file [wide.json] holds Base64(str(5)) as its
    marked state; with two qubits the decoded string is [101], three
    characters long: [zfill] pads and never truncates. *)
Lemma wide_value_is_not_truncated :
  JArray [entry 5] = JArray [JString "NQ=="]
  /\ exists o : QuantumOracle,
       __init__ example_fs [0; 1] 2 "wide.json" = inr o
       /\ marked_states o = ["101"]
       /\ ~ Forall (fun d => String.length d = n_qubits o) (marked_states o).
Proof.
  split; [reflexivity|].
  eexists. split; [reflexivity|]. split; [reflexivity|].
  cbn. intros H. inversion H; subst. discriminate.
Qed.

(** C1, amended: for every configuration whose entries decode to
    non-negative integers and every [n_qubits], construction succeeds, the
    oracle has one marked state per entry of the file's list (and one
    solution per entry), every decoded string matches [[01]*] and has
    [max(n_qubits, number of binary digits of the value)] characters: it
    has exactly [n_qubits] characters when the value is below
    [2 ^ n_qubits] (and [n_qubits >= 1]), and more, without truncation,
    when the value is [2 ^ n_qubits] or more. *)
Theorem decoded_strings_are_padded_not_truncated
    (fs : filesystem) (regs : list wire) (n : nat) (path : string)
    (data : json) (ms ss : list json) (vm vs : list Z) :
  fs path = Document data ->
  subscript data "marked_states" = inr (JArray ms) ->
  subscript data "solutions" = inr (JArray ss) ->
  Forall2 nonneg_entry ms vm ->
  Forall2 nonneg_entry ss vs ->
  exists o : QuantumOracle,
    __init__ fs regs n path = inr o
    /\ List.length (marked_states o) = List.length ms
    /\ List.length (solutions o) = List.length ss
    /\ Forall2
         (fun v d =>
            all_bits d = true
            /\ String.length d
               = Nat.max n (String.length (bin_digits (Z.abs_N v)))
            /\ (v < 2 ^ Z.of_nat n -> (1 <= n)%nat -> String.length d = n)
            /\ (2 ^ Z.of_nat n <= v -> (n < String.length d)%nat))
         (vm ++ vs)%list (marked_states o ++ solutions o)%list.
Proof.
  intros Hfs Hm Hs Fm Fs.
  eexists. split; [exact (init_nonneg fs regs n path data ms ss vm vs
                            Hfs Hm Hs Fm Fs)|].
  cbn [marked_states solutions].
  pose proof (Forall2_length Fm) as Lm. pose proof (Forall2_length Fs) as Ls.
  rewrite !length_map. split; [now symmetry|]. split; [now symmetry|].
  rewrite <- map_app.
  assert (Hnn : Forall (fun v => 0 <= v) (vm ++ vs)%list).
  { apply Forall_app. split.
    - exact (proj2 (comprehension_nonneg n ms vm Fm)).
    - exact (proj2 (comprehension_nonneg n ss vs Fs)). }
  induction Hnn as [|v l Hv _ IH]; cbn [map]; constructor; [|exact IH].
  split; [apply padded_bits|]. split; [apply padded_length|].
  rewrite padded_length. split.
  - intros Hlt Hn. pose proof (bin_digits_fits v n (conj Hv Hlt) Hn). lia.
  - intros Hge. pose proof (bin_digits_wide v n Hge). lia.
Qed.

Lemma decoded_strings_witness :
  exists o : QuantumOracle,
    __init__ example_fs [0; 1] 2 "oracle.json" = inr o
    /\ List.length (marked_states o) = 1%nat
    /\ List.length (solutions o) = 1%nat
    /\ Forall2
         (fun v d =>
            all_bits d = true
            /\ String.length d
               = Nat.max 2 (String.length (bin_digits (Z.abs_N v)))
            /\ (v < 2 ^ Z.of_nat 2 -> (1 <= 2)%nat -> String.length d = 2%nat)
            /\ (2 ^ Z.of_nat 2 <= v -> (2 < String.length d)%nat))
         [3; 3] (marked_states o ++ solutions o)%list.
Proof.
  apply (decoded_strings_are_padded_not_truncated example_fs [0; 1] 2
           "oracle.json" (config ["Mw=="] ["Mw=="])
           [JString "Mw=="] [JString "Mw=="] [3] [3]);
    try reflexivity;
    (constructor; [split; [reflexivity | lia] | constructor]).
Defined.

(** C6: for every non-negative [v] and every [n_qubits], the entry
    Base64(str(v)) decodes to the binary digits of [v] left-padded with
    zeros to [n_qubits] characters, a text that denotes [v]; an oracle
    constructed from a configuration of such entries holds these strings,
    in order. *)
Theorem base64_decimal_round_trip
    (fs : filesystem) (regs : list wire) (n : nat) (path : string)
    (data : json) (vm vs : list Z) :
  Forall (fun v => 0 <= v) (vm ++ vs)%list ->
  fs path = Document data ->
  subscript data "marked_states" = inr (JArray (map entry vm)) ->
  subscript data "solutions" = inr (JArray (map entry vs)) ->
  __init__ fs regs n path
  = inr {| input_registers := regs; n_qubits := n;
           marked_states := map (padded n) vm;
           solutions := map (padded n) vs |}
  /\ Forall (fun v => _decode_base64 n (entry v) = inr (padded n v)
                      /\ Z.of_N (binary_value (padded n v)) = v)
            (vm ++ vs)%list.
Proof.
  intros Hnn Hfs Hm Hs. pose proof Hnn as Hnn'.
  apply Forall_app in Hnn' as [Hvm Hvs]. split.
  - apply (init_nonneg fs regs n path data _ _ vm vs Hfs Hm Hs);
      now apply Forall2_entry.
  - apply Forall_impl with (2 := Hnn). intros v Hv. split.
    + apply decode_entry; [now apply decoded_int_entry | exact Hv].
    + now apply padded_value.
Qed.

Lemma base64_decimal_round_trip_witness :
  __init__ example_fs [0; 1] 4 "wide.json"
  = inr {| input_registers := [0; 1]; n_qubits := 4;
           marked_states := ["0101"]; solutions := ["0011"] |}
  /\ Forall (fun v => _decode_base64 4 (entry v) = inr (padded 4 v)
                      /\ Z.of_N (binary_value (padded 4 v)) = v)
            [5; 3].
Proof.
  apply (base64_decimal_round_trip example_fs [0; 1] 4 "wide.json"
           (config ["NQ=="] ["Mw=="]) [5] [3]).
  - repeat constructor; lia.
  - reflexivity.
  - reflexivity.
  - reflexivity.
Defined.

Lemma decode_entry_raises (n : nat) (e : json) (err : exn) :
  decoded_int e = inl err -> _decode_base64 n e = inl err.
Proof. intros H. unfold _decode_base64. now rewrite H. Qed.






(** ** apply_oracle *)

Lemma queued_nil (ctx : context) : queued ctx [] = ctx.
Proof. destruct ctx as [o q]. unfold queued. cbn. now rewrite app_nil_r. Qed.

Lemma queued_queued (ctx : context) (a b : list operation) :
  queued (queued ctx a) b = queued ctx (a ++ b).
Proof. unfold queued. cbn. now rewrite app_assoc. Qed.

Lemma skipn_cons (i : nat) (l : list wire) (w : wire) (rest : list wire) :
  skipn i l = w :: rest -> nth_error l i = Some w /\ skipn (S i) l = rest.
Proof.
  revert l. induction i as [|i IH]; intros l H.
  - cbn in H. subst l. split; reflexivity.
  - destruct l as [|x l]; [discriminate|]. cbn [skipn] in H.
    destruct (IH l H) as [H1 H2]. split; [exact H1 | exact H2].
Qed.

Lemma flip_bit_run (i : nat) (bit : ascii) (w : wire) (ctx : context) :
  nth_error (input_registers (self ctx)) i = Some w ->
  flip_bit (i, bit) ctx
  = (inr tt, queued ctx (if Ascii.eqb bit "0" then [PauliX w] else [])).
Proof.
  intros Hnth. unfold flip_bit. destruct (Ascii.eqb bit "0").
  - unfold mbind, attr, item. rewrite Hnth. reflexivity.
  - unfold ret. now rewrite queued_nil.
Qed.



Lemma last_item_run (controls : list wire) (target : wire) (ctx : context) :
  last_item (controls ++ [target]) ctx = (inr target, ctx)
  /\ last (controls ++ [target]) 0 = target
  /\ removelast (controls ++ [target]) = controls.
Proof.
  split; [|split; [apply last_last | apply removelast_last]].
  destruct controls as [|w rest]; [reflexivity|].
  cbn [app last_item]. unfold ret. f_equal. f_equal. apply last_last.
Qed.

Lemma mbind_run {A B : Type} (m : method A) (k : A -> method B)
    (ctx ctx' : context) (a : A) :
  m ctx = (inr a, ctx') -> mbind m k ctx = k a ctx'.
Proof. intros H. unfold mbind. now rewrite H. Qed.

Lemma attr_run {A : Type} (attribute : QuantumOracle -> A) (ctx : context) :
  attr attribute ctx = (inr (attribute (self ctx)), ctx).
Proof. reflexivity. Qed.

Lemma emit_run (op : operation) (ctx : context) :
  emit op ctx = (inr tt, queued ctx [op]).
Proof. reflexivity. Qed.








(** The wires of a mask are the wires at the positions of a [0]. *)
Lemma zero_wires_positions (registers : list wire) (state : string)
    (w : wire) :
  In w (zero_wires registers state)
  <-> exists i : nat,
        String.get i state = Some "0"%char /\ nth_error registers i = Some w.
Proof.
  revert registers. induction state as [|bit state IH]; intros registers.
  - cbn. split; [tauto|]. intros (i & H & _). destruct i; discriminate.
  - destruct registers as [|x registers].
    + cbn. split; [tauto|]. intros (i & _ & H). destruct i; discriminate.
    + cbn [zero_wires]. destruct (Ascii.eqb bit "0") eqn:E.
      * apply Ascii.eqb_eq in E. subst bit. cbn [In]. rewrite IH. split.
        -- intros [->|(i & H1 & H2)]; [now exists 0%nat | now exists (S i)].
        -- intros ([|i] & H1 & H2); [left; cbn in H2; congruence|].
           right. now exists i.
      * apply Ascii.eqb_neq in E. rewrite IH. split.
        -- intros (i & H1 & H2). now exists (S i).
        -- intros ([|i] & H1 & H2); [cbn in H1; congruence|]. now exists i.
Qed.










(** ** Frame *)

Lemma appends_ret {A : Type} (a : A) : appends_only (ret a).
Proof. intros ctx. exists []. cbn. now rewrite queued_nil. Qed.

Lemma appends_raise {A : Type} (e : exn) : appends_only (@raise A e).
Proof. intros ctx. exists []. cbn. now rewrite queued_nil. Qed.

Lemma appends_attr {A : Type} (f : QuantumOracle -> A) :
  appends_only (attr f).
Proof. intros ctx. exists []. cbn. now rewrite queued_nil. Qed.

Lemma appends_emit (op : operation) : appends_only (emit op).
Proof. intros ctx. now exists [op]. Qed.

Lemma appends_mbind {A B : Type} (m : method A) (k : A -> method B) :
  appends_only m -> (forall a, appends_only (k a)) ->
  appends_only (mbind m k).
Proof.
  intros Hm Hk ctx. unfold mbind. destruct (Hm ctx) as [ops Hops].
  destruct (m ctx) as [[e|a] ctx']; cbn [snd] in Hops; subst ctx'.
  - now exists ops.
  - destruct (Hk a (queued ctx ops)) as [ops' Hops'].
    exists (ops ++ ops')%list. now rewrite Hops', queued_queued.
Qed.

Lemma appends_for_each {A : Type} (xs : list A) (body : A -> method unit) :
  (forall x, appends_only (body x)) -> appends_only (for_each xs body).
Proof.
  intros Hbody. induction xs as [|x xs IH]; cbn [for_each].
  - apply appends_ret.
  - apply appends_mbind; [apply Hbody | intros _; exact IH].
Qed.

Lemma appends_item (registers : list wire) (i : nat) :
  appends_only (item registers i).
Proof.
  unfold item. destruct (nth_error registers i);
    [apply appends_ret | apply appends_raise].
Qed.

Lemma appends_last_item (registers : list wire) :
  appends_only (last_item registers).
Proof.
  destruct registers; [apply appends_raise | apply appends_ret].
Qed.

Create HintDb frame.

#[local] Hint Resolve appends_ret appends_raise appends_attr appends_emit
  appends_mbind appends_for_each appends_item appends_last_item : frame.

Lemma appends_flip_bit (i_bit : nat * ascii) : appends_only (flip_bit i_bit).
Proof.
  destruct i_bit as [i bit]. unfold flip_bit.
  destruct (Ascii.eqb bit "0"); auto 10 with frame.
Qed.

#[local] Hint Resolve appends_flip_bit : frame.

Lemma appends_flip_zeros (state : string) : appends_only (flip_zeros state).
Proof. unfold flip_zeros. auto with frame. Qed.

#[local] Hint Resolve appends_flip_zeros : frame.

Lemma appends_mark_state (state : string) : appends_only (mark_state state).
Proof. unfold mark_state. auto 10 with frame. Qed.

#[local] Hint Resolve appends_mark_state : frame.

Lemma appends_apply_oracle : appends_only apply_oracle.
Proof. unfold apply_oracle. auto 20 with frame. Qed.

Lemma contains_In (haystack : list string) (needle : string) :
  contains haystack needle = true <-> In needle haystack.
Proof.
  unfold contains. rewrite existsb_exists. split.
  - intros (s & Hin & Heq). apply String.eqb_eq in Heq. now subst.
  - intros Hin. exists needle. split; [exact Hin | apply String.eqb_refl].
Qed.

Lemma is_solution_run (x : list Z) (ctx : context) :
  is_solution x ctx
  = (inr (if contains (solutions (self ctx))
                      (join (map (fun i => slice_from 2 (bin i)) x))
          then 1 else 0), ctx).
Proof. reflexivity. Qed.

(** C8: a call to [apply_oracle] leaves every field of the oracle as it
    was and only appends to the queue of the circuit being recorded,
    whether it returns or raises; a call to [is_solution] changes neither
    the oracle nor the queue, and its result is a function of its
    argument and of the solutions loaded at construction.  Neither method
    takes or reaches the file system. *)
Theorem methods_leave_the_oracle_unchanged (ctx : context) (x : list Z) :
  self (snd (apply_oracle ctx)) = self ctx
  /\ (exists ops, queue (snd (apply_oracle ctx)) = (queue ctx ++ ops)%list)
  /\ snd (is_solution x ctx) = ctx
  /\ forall ctx' : context,
       solutions (self ctx') = solutions (self ctx) ->
       fst (is_solution x ctx') = fst (is_solution x ctx).
Proof.
  destruct (appends_apply_oracle ctx) as [ops Hops].
  split; [now rewrite Hops|]. split; [exists ops; now rewrite Hops|].
  split; [reflexivity|].
  intros ctx' Hsol. rewrite !is_solution_run. cbn [fst]. now rewrite Hsol.
Qed.

Lemma methods_leave_the_oracle_unchanged_witness :
  fst (is_solution [1; 1]
         {| self := example_oracle;
            queue := [Adder 1 [0; 1] 4] |})
  = fst (is_solution [1; 1] {| self := example_oracle; queue := [] |}).
Proof.
  apply (proj2 (proj2 (proj2 (methods_leave_the_oracle_unchanged
                                {| self := example_oracle; queue := [] |}
                                [1; 1])))).
  reflexivity.
Defined.

(** ** is_solution *)

(** C2: [is_solution(x)] returns 1 exactly when the concatenation of
    [bin(i)[2:]] over the elements of [x] is one of the solution strings,
    and 0 exactly when it is none of them; for a non-negative element
    that text is its binary digits, without padding, and denotes the
    element. *)
Theorem is_solution_exact_match (ctx : context) (x : list Z) :
  (fst (is_solution x ctx) = inr 1
   <-> In (join (map (fun i => slice_from 2 (bin i)) x))
          (solutions (self ctx)))
  /\ (fst (is_solution x ctx) = inr 0
      <-> ~ In (join (map (fun i => slice_from 2 (bin i)) x))
               (solutions (self ctx)))
  /\ Forall (fun i => 0 <= i ->
                      slice_from 2 (bin i) = bin_digits (Z.abs_N i)
                      /\ Z.of_N (binary_value (slice_from 2 (bin i))) = i) x.
Proof.
  rewrite is_solution_run. cbn [fst].
  pose proof (contains_In (solutions (self ctx))
                (join (map (fun i => slice_from 2 (bin i)) x))) as Hc.
  destruct (contains (solutions (self ctx))
              (join (map (fun i => slice_from 2 (bin i)) x))).
  - split; [|split].
    + split; [intros _; now apply Hc | reflexivity].
    + split; [discriminate|]. intros Hn. exfalso. apply Hn. now apply Hc.
    + apply Forall_forall. intros i _ Hi. rewrite slice_bin by exact Hi.
      split; [reflexivity|].
      rewrite binary_value_bin_digits, N2Z.inj_abs_N. lia.
  - split; [|split].
    + split; [discriminate|]. intros Hin. apply Hc in Hin. discriminate.
    + split; [|reflexivity]. intros _ Hin. apply Hc in Hin. discriminate.
    + apply Forall_forall. intros i _ Hi. rewrite slice_bin by exact Hi.
      split; [reflexivity|].
      rewrite binary_value_bin_digits, N2Z.inj_abs_N. lia.
Qed.

Lemma is_solution_exact_match_witness :
  fst (is_solution [1; 1] {| self := example_oracle; queue := [] |}) = inr 1.
Proof.
  apply (proj1 (is_solution_exact_match
                  {| self := example_oracle; queue := [] |} [1; 1])).
  cbn. left. reflexivity.
Defined.

(** The match is on the text: [011] and [11] denote the same number and
    do not match. *)
Example is_solution_no_numeric_match :
  binary_value "011" = binary_value "11"
  /\ fst (is_solution [1; 1]
            {| self := {| input_registers := [0; 1; 2]; n_qubits := 3;
                          marked_states := ["011"]; solutions := ["011"] |};
               queue := [] |}) = inr 0.
Proof. split; reflexivity. Qed.

(** C9: inputs whose concatenated binary texts coincide get the same
    answer; in particular [is_solution([3])] is [is_solution([1, 1])]. *)
Theorem is_solution_same_text (ctx : context) :
  (forall x y : list Z,
      join (map (fun i => slice_from 2 (bin i)) x)
      = join (map (fun i => slice_from 2 (bin i)) y) ->
      is_solution x ctx = is_solution y ctx)
  /\ is_solution [3] ctx = is_solution [1; 1] ctx.
Proof.
  assert (H : forall x y : list Z,
             join (map (fun i => slice_from 2 (bin i)) x)
             = join (map (fun i => slice_from 2 (bin i)) y) ->
             is_solution x ctx = is_solution y ctx).
  { intros x y Heq. rewrite !is_solution_run. now rewrite Heq. }
  split; [exact H | apply H; reflexivity].
Qed.

Lemma is_solution_same_text_witness :
  is_solution [3] {| self := example_oracle; queue := [] |}
  = is_solution [1; 1] {| self := example_oracle; queue := [] |}.
Proof.
  apply (proj1 (is_solution_same_text
                  {| self := example_oracle; queue := [] |}) [3] [1; 1]).
  reflexivity.
Defined.

(** The scenario of the specification: Base64 of [3] on two qubits. *)
Example scenario_three_on_two_qubits :
  exists o : QuantumOracle,
    __init__ example_fs [0; 1] 2 "oracle.json" = inr o
    /\ marked_states o = ["11"] /\ solutions o = ["11"]
    /\ fst (is_solution [1; 1] {| self := o; queue := [] |}) = inr 1
    /\ fst (is_solution [1; 0] {| self := o; queue := [] |}) = inr 0.
Proof. eexists. repeat split. Qed.

(** C10: for every oracle and every list of integers, [is_solution]
    returns, without raising, and its result is 0 or 1. *)
Theorem is_solution_total (ctx : context) (x : list Z) :
  exists r : Z,
    is_solution x ctx = (inr r, ctx) /\ (r = 0 \/ r = 1).
Proof.
  rewrite is_solution_run.
  destruct (contains (solutions (self ctx))
              (join (map (fun i => slice_from 2 (bin i)) x)));
    eexists; split; try reflexivity; auto.
Qed.

Example is_solution_empty_input :
  is_solution [] {| self := example_oracle; queue := [] |}
  = (inr 0, {| self := example_oracle; queue := [] |}).
Proof. reflexivity. Qed.

Example is_solution_other_values :
  is_solution [-1; 7] {| self := example_oracle; queue := [] |}
  = (inr 0, {| self := example_oracle; queue := [] |}).
Proof. reflexivity. Qed.

(** * Further properties *)

(** ** Configurations of the wrong shape *)

Lemma init_raises_from_load (fs : filesystem) (regs : list wire) (n : nat)
    (path : string) (e : exn) :
  _load_config fs n path = inl e -> __init__ fs regs n path = inl e.
Proof. intros H. unfold __init__. now rewrite H. Qed.

(** X1: a document that is not an object raises [TypeError]; an object
    without the key [marked_states] raises [KeyError]; an object whose
    marked states all decode and that has no key [solutions] raises
    [KeyError]. *)
Theorem missing_key_or_object (fs : filesystem) (regs : list wire)
    (n : nat) (path : string) (data : json) :
  fs path = Document data ->
  match data with
  | JObject members =>
      (lookup "marked_states" members = None ->
       __init__ fs regs n path = inl KeyError)
      /\ (forall v ms marked,
             lookup "marked_states" members = Some v ->
             iterate v = inr ms ->
             comprehension (_decode_base64 n) ms = inr marked ->
             lookup "solutions" members = None ->
             __init__ fs regs n path = inl KeyError)
  | _ => __init__ fs regs n path = inl TypeError
  end.
Proof.
  intros Hfs.
  assert (Hload : json_load fs path = inr data)
    by (unfold json_load; now rewrite Hfs).
  destruct data as [| b | z | s | items | members];
    try (apply init_raises_from_load; unfold _load_config;
         rewrite Hload; reflexivity).
  split.
  - intros Hm. apply init_raises_from_load. unfold _load_config.
    rewrite Hload. cbn [bind subscript]. now rewrite Hm.
  - intros v ms marked Hm Hit Hdec Hs. apply init_raises_from_load.
    unfold _load_config. rewrite Hload. cbn [bind subscript].
    rewrite Hm. cbn [bind]. rewrite Hit. cbn [bind]. rewrite Hdec.
    cbn [bind]. now rewrite Hs.
Qed.

Lemma missing_key_or_object_witness :
  __init__ shapes_fs [0; 1] 2 "array.json" = inl TypeError
  /\ __init__ shapes_fs [0; 1] 2 "nomarked.json" = inl KeyError
  /\ __init__ shapes_fs [0; 1] 2 "nosolutions.json" = inl KeyError.
Proof.
  split; [|split].
  - exact (missing_key_or_object shapes_fs [0; 1] 2 "array.json"
             (JArray []) eq_refl).
  - apply (proj1 (missing_key_or_object shapes_fs [0; 1] 2 "nomarked.json"
                    _ eq_refl)). reflexivity.
  - apply (proj2 (missing_key_or_object shapes_fs [0; 1] 2
                    "nosolutions.json" _ eq_refl)
             (JArray [JString "Mw=="]) [JString "Mw=="] ["11"]);
      reflexivity.
Defined.

Lemma comprehension_first_failure {A B : Type} (f : A -> result B)
    (good : list A) (bad : A) (rest : list A) (e : exn) :
  Forall (fun g => exists d, f g = inr d) good ->
  f bad = inl e ->
  comprehension f (good ++ bad :: rest) = inl e.
Proof.
  intros Hgood Hbad. induction Hgood as [|g good [d Hd] _ IH].
  - cbn. now rewrite Hbad.
  - cbn [app comprehension]. rewrite Hd. cbn [bind]. now rewrite IH.
Qed.

Lemma marked_entry_failure (fs : filesystem) (regs : list wire)
    (n : nat) (path : string) (data v : json) (good : list json)
    (bad : json) (rest : list json) (e : exn) :
  fs path = Document data ->
  subscript data "marked_states" = inr v ->
  iterate v = inr (good ++ bad :: rest)%list ->
  Forall (fun g => exists d, _decode_base64 n g = inr d) good ->
  _decode_base64 n bad = inl e ->
  __init__ fs regs n path = inl e.
Proof.
  intros Hfs Hm Hit Hgood Hbad. apply init_raises_from_load.
  unfold _load_config, json_load. rewrite Hfs. cbn [bind].
  rewrite Hm. cbn [bind]. rewrite Hit. cbn [bind].
  now rewrite (comprehension_first_failure _ good bad rest e Hgood Hbad).
Qed.

(** X2: the exception of the first marked-state entry that does not
    decode escapes the constructor, whatever follows that entry and
    whatever the rest of the document holds: the marked states are
    decoded, in order, before [solutions] is looked up. *)
Theorem first_failing_entry_escapes (fs : filesystem) (regs : list wire)
    (n : nat) (path : string) (data v : json) (good : list json)
    (bad : json) (rest : list json) (e : exn) :
  fs path = Document data ->
  subscript data "marked_states" = inr v ->
  iterate v = inr (good ++ bad :: rest)%list ->
  Forall (fun g => exists d, _decode_base64 n g = inr d) good ->
  _decode_base64 n bad = inl e ->
  __init__ fs regs n path = inl e.
Proof. exact (marked_entry_failure fs regs n path data v good bad rest e). Qed.

Lemma first_failing_entry_witness :
  __init__ shapes_fs [0; 1] 2 "number.json" = inl TypeError.
Proof.
  apply (first_failing_entry_escapes shapes_fs [0; 1] 2 "number.json"
           (JObject [("marked_states",
                      JArray [JString "Mw=="; JNumber 3; JString "Mw"])])
           (JArray [JString "Mw=="; JNumber 3; JString "Mw"])
           [JString "Mw=="] (JNumber 3) [JString "Mw"]).
  - reflexivity.
  - reflexivity.
  - reflexivity.
  - constructor; [now exists "11" | constructor].
  - reflexivity.
Defined.

Lemma one_character_never_decodes (c : ascii) :
  decoded_int (JString (String c EmptyString)) = inl BinasciiError
  \/ decoded_int (JString (String c EmptyString)) = inl ValueError.
Proof.
  destruct c as [[] [] [] [] [] [] [] []]; vm_compute; auto.
Qed.

(** X3: when [marked_states] is a string and not a list, the loop draws
    its characters one by one, and no single character decodes: unless
    the string is empty, construction raises [binascii.Error] or
    [ValueError]. *)
Theorem string_for_a_list_raises (fs : filesystem) (regs : list wire)
    (n : nat) (path : string) (data : json) (s : string) :
  fs path = Document data ->
  subscript data "marked_states" = inr (JString s) ->
  s <> EmptyString ->
  __init__ fs regs n path = inl BinasciiError
  \/ __init__ fs regs n path = inl ValueError.
Proof.
  intros Hfs Hm Hs. destruct s as [|c s]; [congruence|].
  destruct (one_character_never_decodes c) as [H|H]; [left|right];
    apply (marked_entry_failure fs regs n path data
             (JString (String c s)) [] (JString (String c EmptyString))
             (characters s));
    try assumption; try reflexivity; try constructor;
    now apply decode_entry_raises.
Qed.

Lemma string_for_a_list_witness :
  __init__ shapes_fs [0; 1] 2 "text.json" = inl BinasciiError
  \/ __init__ shapes_fs [0; 1] 2 "text.json" = inl ValueError.
Proof.
  apply (string_for_a_list_raises shapes_fs [0; 1] 2 "text.json"
           (JObject [("marked_states", JString "Mw==");
                     ("solutions", JArray [])]) "Mw==").
  - reflexivity.
  - reflexivity.
  - discriminate.
Defined.

(** ** Entries that are not plain Base64 of a non-negative number *)

Lemma int_magnitude_digits (s : string) (n : N) :
  all_digits s = true -> s <> EmptyString ->
  int_digits 0 s = Some n -> int_magnitude s = Some n.
Proof.
  intros Hall Hne Hval. destruct s as [|c s']; [congruence|].
  cbn [all_digits] in Hall. cbn [int_magnitude]. cbn [int_digits] in Hval.
  destruct (digit_value c) as [d|]; [|discriminate].
  now rewrite N.mul_0_r, N.add_0_l in Hval.
Qed.

(** [int(str(v))] is [v] for a negative [v] as well. *)
Lemma int_str_negative (v : Z) : v < 0 -> int (str v) = inr v.
Proof.
  intros Hv. unfold str.
  destruct (v <? 0) eqn:E; [|apply Z.ltb_ge in E; lia].
  cbn [String.append]. unfold int. cbn [skip_spaces].
  change (is_space "-") with false. cbn iota.
  change (Ascii.eqb "-" "-") with true. cbn iota.
  destruct (int_digits_dec_digits _ (Z.abs_N v) EmptyString 0 (abs_N_bound v))
    as [k Hk].
  rewrite (int_magnitude_digits _ (Z.abs_N v)).
  - f_equal. rewrite N2Z.inj_abs_N. lia.
  - now apply dec_digits_all_digits.
  - apply dec_digits_nonempty.
  - rewrite Hk. cbn [int_digits]. f_equal; lia.
Qed.

Lemma decoded_int_negative_entry (v : Z) :
  v < 0 -> decoded_int (entry v) = inr v.
Proof.
  intros Hv. unfold entry, decoded_int.
  rewrite b64decode_b64encode. cbn [bind].
  assert (Hascii : forallb is_ascii (encode (str v)) = true).
  { unfold str. destruct (v <? 0) eqn:E; [|apply Z.ltb_ge in E; lia].
    cbn [String.append]. unfold encode. cbn [list_ascii_of_string forallb].
    change (is_ascii "-") with true. cbn [andb].
    apply all_digits_ascii. now apply dec_digits_all_digits. }
  unfold decode. rewrite Hascii. unfold encode.
  rewrite string_of_list_ascii_of_string. cbn [bind].
  now apply int_str_negative.
Qed.

Lemma slice_bin_negative (v : Z) :
  v < 0 -> slice_from 2 (bin v) = negative_text v.
Proof.
  intros Hv. unfold bin.
  destruct (v <? 0) eqn:E; [reflexivity | apply Z.ltb_ge in E; lia].
Qed.

(** X4: a negative number is accepted: the entry Base64(str(v)) of a
    negative [v] decodes, without an exception, to the letter [b]
    followed by the binary digits of [-v], left-padded with zeros to
    [n_qubits] characters, which is not a string of bits. *)
Theorem negative_entry_keeps_prefix_letter (n : nat) (v : Z) :
  v < 0 ->
  _decode_base64 n (entry v)
  = inr (zeros (n - String.length (negative_text v)) ++ negative_text v)
  /\ all_bits (zeros (n - String.length (negative_text v))
               ++ negative_text v) = false.
Proof.
  intros Hv. split.
  - unfold _decode_base64. rewrite decoded_int_negative_entry by exact Hv.
    cbn [bind]. rewrite slice_bin_negative by exact Hv. f_equal.
    unfold zfill.
    destruct (n <=? String.length (negative_text v))%nat eqn:E.
    + apply Nat.leb_le in E.
      replace (n - String.length (negative_text v))%nat with 0%nat by lia.
      reflexivity.
    + reflexivity.
  - rewrite all_bits_append, all_bits_zeros. reflexivity.
Qed.

Lemma negative_entry_witness :
  _decode_base64 6 (entry (-5)) = inr "00b101"
  /\ all_bits "00b101" = false.
Proof.
  exact (negative_entry_keeps_prefix_letter 6 (-5) eq_refl).
Defined.

Lemma loop_skips (c : ascii) (s2 : string) :
  table_a2b_base64 c = None -> Ascii.eqb c "=" = false ->
  forall (s1 : string) (quad_pos : nat) (leftchar : N) (pads : nat)
         (out : list ascii),
    a2b_base64_loop (s1 ++ String c s2) quad_pos leftchar pads out
    = a2b_base64_loop (s1 ++ s2) quad_pos leftchar pads out.
Proof.
  intros Htab Hpad. induction s1 as [|x s1 IH];
    intros quad_pos leftchar pads out.
  - cbn [String.append a2b_base64_loop]. now rewrite Hpad, Htab.
  - cbn [String.append a2b_base64_loop].
    destruct (Ascii.eqb x "=").
    + destruct (2 <=? quad_pos)%nat; [|apply IH].
      destruct (4 <=? quad_pos + S pads)%nat; [reflexivity | apply IH].
    + destruct (table_a2b_base64 x) as [this_ch|]; [|apply IH].
      destruct quad_pos as [|[|[|q]]]; apply IH.
Qed.

Lemma all_ascii_append (s t : string) :
  all_ascii (s ++ t) = all_ascii s && all_ascii t.
Proof.
  induction s as [|c s IH]; cbn; [reflexivity|].
  now rewrite IH, andb_assoc.
Qed.

(** X5: an ASCII character that is neither of the Base64 alphabet nor
    the padding character (a space, a line break, an exclamation mark) is
    ignored wherever it stands in an entry: the entry decodes to the same
    string, or raises the same exception, as without it. *)
Theorem stray_character_is_ignored (n : nat) (s1 s2 : string) (c : ascii) :
  table_a2b_base64 c = None ->
  Ascii.eqb c "=" = false ->
  is_ascii c = true ->
  _decode_base64 n (JString (s1 ++ String c s2))
  = _decode_base64 n (JString (s1 ++ s2)).
Proof.
  intros Htab Hpad Hascii. unfold _decode_base64, decoded_int, b64decode.
  rewrite !all_ascii_append. cbn [all_ascii]. rewrite Hascii. cbn [andb].
  destruct (all_ascii s1 && all_ascii s2); [|reflexivity].
  now rewrite (loop_skips c s2 Htab Hpad).
Qed.

Lemma stray_character_witness :
  _decode_base64 2 (JString "M w==") = _decode_base64 2 (JString "Mw==").
Proof.
  exact (stray_character_is_ignored 2 "M" "w==" " " eq_refl eq_refl eq_refl).
Defined.

(** X6: the decoded string determines the number: two entries that decode
    to non-negative integers and give the same string hold the same
    integer, so distinct values never share a marked state. *)
Theorem decoded_string_determines_value (n : nat) (e1 e2 : json)
    (v1 v2 : Z) :
  decoded_int e1 = inr v1 -> 0 <= v1 ->
  decoded_int e2 = inr v2 -> 0 <= v2 ->
  _decode_base64 n e1 = _decode_base64 n e2 ->
  v1 = v2.
Proof.
  intros H1 P1 H2 P2 Heq.
  rewrite (decode_entry n e1 v1 H1 P1), (decode_entry n e2 v2 H2 P2) in Heq.
  injection Heq as Heq.
  rewrite <- (padded_value n v1 P1), <- (padded_value n v2 P2).
  now rewrite Heq.
Qed.

Lemma decoded_string_determines_value_witness : 3 = 3.
Proof.
  apply (decoded_string_determines_value 4 (JString "Mw==")
           (JString "M w==") 3 3); try reflexivity; lia.
Defined.

(** ** What every constructed oracle holds *)

Lemma init_lists (fs : filesystem) (regs : list wire) (n : nat)
    (path : string) (o : QuantumOracle) :
  __init__ fs regs n path = inr o ->
  exists ms ss : list json,
    comprehension (_decode_base64 n) ms = inr (marked_states o)
    /\ comprehension (_decode_base64 n) ss = inr (solutions o).
Proof.
  unfold __init__. intros H.
  destruct (_load_config fs n path) as [e|[marked sols]] eqn:E;
    [discriminate|].
  cbn in H. injection H as <-. cbn [marked_states solutions].
  unfold _load_config in E.
  destruct (json_load fs path) as [e|data]; [discriminate|]. cbn [bind] in E.
  destruct (subscript data "marked_states") as [e|v]; [discriminate|].
  cbn [bind] in E. destruct (iterate v) as [e|ms]; [discriminate|].
  cbn [bind] in E.
  destruct (comprehension (_decode_base64 n) ms) as [e|marked'] eqn:Em;
    [discriminate|].
  cbn [bind] in E.
  destruct (subscript data "solutions") as [e|w]; [discriminate|].
  cbn [bind] in E. destruct (iterate w) as [e|ss]; [discriminate|].
  cbn [bind] in E.
  destruct (comprehension (_decode_base64 n) ss) as [e|sols'] eqn:Es;
    [discriminate|].
  cbn [bind] in E. injection E as <- <-. now exists ms, ss.
Qed.

Lemma init_solutions (fs : filesystem) (regs : list wire) (n : nat)
    (path : string) (o : QuantumOracle) (data : json) (ss : list json) :
  __init__ fs regs n path = inr o ->
  fs path = Document data ->
  subscript data "solutions" = inr (JArray ss) ->
  comprehension (_decode_base64 n) ss = inr (solutions o).
Proof.
  unfold __init__. intros H Hfs Hs.
  destruct (_load_config fs n path) as [e|[marked sols]] eqn:E;
    [discriminate|].
  cbn in H. injection H as <-. cbn [solutions].
  unfold _load_config, json_load in E. rewrite Hfs in E. cbn [bind] in E.
  destruct (subscript data "marked_states") as [e|v]; [discriminate|].
  cbn [bind] in E. destruct (iterate v) as [e|ms]; [discriminate|].
  cbn [bind] in E.
  destruct (comprehension (_decode_base64 n) ms) as [e|marked'];
    [discriminate|].
  cbn [bind] in E. rewrite Hs in E. cbn [bind iterate] in E.
  destruct (comprehension (_decode_base64 n) ss) as [e|sols'];
    [discriminate|].
  cbn [bind] in E. congruence.
Qed.

Lemma slice_bin_nonempty (v : Z) :
  (1 <= String.length (slice_from 2 (bin v)))%nat.
Proof.
  destruct (Z.lt_ge_cases v 0) as [Hv|Hv].
  - rewrite slice_bin_negative by exact Hv. cbn. lia.
  - rewrite slice_bin by lia.
    destruct (bin_digits_unsigned (Z.abs_N v)) as (c & s & -> & _).
    cbn. lia.
Qed.

Lemma decoded_length (n : nat) (e : json) (d : string) :
  _decode_base64 n e = inr d -> (Nat.max 1 n <= String.length d)%nat.
Proof.
  unfold _decode_base64. destruct (decoded_int e) as [err|v]; [discriminate|].
  cbn [bind]. intros H. injection H as <-. rewrite zfill_length.
  pose proof (slice_bin_nonempty v) as Hpos.
  apply Nat.max_lub.
  - etransitivity; [exact Hpos | apply Nat.le_max_r].
  - apply Nat.le_max_l.
Qed.

Lemma comprehension_decoded_length (n : nat) (es : list json)
    (ds : list string) :
  comprehension (_decode_base64 n) es = inr ds ->
  Forall (fun d => (Nat.max 1 n <= String.length d)%nat) ds.
Proof.
  intros H. apply comprehension_ok in H.
  induction H as [|e d es ds Hd _ IH]; constructor;
    [exact (decoded_length n e d Hd) | exact IH].
Qed.

Lemma init_lengths (fs : filesystem) (regs : list wire) (n : nat)
    (path : string) (o : QuantumOracle) :
  __init__ fs regs n path = inr o ->
  Forall (fun d => (Nat.max 1 n <= String.length d)%nat)
         (marked_states o ++ solutions o)%list.
Proof.
  intros H. destruct (init_lists fs regs n path o H) as (ms & ss & Hm & Hs).
  apply Forall_app. split; eapply comprehension_decoded_length; eassumption.
Qed.

(** X7: whatever the document holds, every marked state and every
    solution of a constructed oracle has at least [n_qubits] characters,
    and at least one: no stored string is empty or shorter than the
    register is said to be. *)
Theorem stored_strings_have_full_width (fs : filesystem)
    (regs : list wire) (n : nat) (path : string) (o : QuantumOracle) :
  __init__ fs regs n path = inr o ->
  Forall (fun d => (Nat.max 1 n <= String.length d)%nat)
         (marked_states o ++ solutions o)%list.
Proof. exact (init_lengths fs regs n path o). Qed.

Lemma stored_strings_witness :
  Forall (fun d => (Nat.max 1 2 <= String.length d)%nat) ["101"; "11"].
Proof.
  exact (stored_strings_have_full_width example_fs [0; 1] 2 "wide.json"
           _ eq_refl).
Defined.

(** X8: on every constructed oracle [is_solution([])] is 0: the empty
    list gives the empty text, and no solution is empty. *)
Theorem is_solution_of_nothing (fs : filesystem) (regs : list wire)
    (n : nat) (path : string) (o : QuantumOracle) (q : list operation) :
  __init__ fs regs n path = inr o ->
  is_solution [] {| self := o; queue := q |}
  = (inr 0, {| self := o; queue := q |}).
Proof.
  intros H. rewrite is_solution_run. cbn [self map join fold_right].
  destruct (contains (solutions o) EmptyString) eqn:E; [|reflexivity].
  apply contains_In in E.
  pose proof (init_lengths fs regs n path o H) as Hlen.
  apply Forall_app in Hlen as [_ Hlen].
  rewrite Forall_forall in Hlen. specialize (Hlen _ E).
  pose proof (Nat.le_trans _ _ _ (Nat.le_max_l 1 n) Hlen) as Habs.
  inversion Habs.
Qed.

Lemma is_solution_of_nothing_witness :
  is_solution []
    {| self := {| input_registers := [0; 1]; n_qubits := 2;
                  marked_states := ["11"]; solutions := ["11"] |};
       queue := [] |}
  = (inr 0,
     {| self := {| input_registers := [0; 1]; n_qubits := 2;
                   marked_states := ["11"]; solutions := ["11"] |};
        queue := [] |}).
Proof.
  exact (is_solution_of_nothing example_fs [0; 1] 2 "oracle.json" _ []
           eq_refl).
Defined.

(** ** is_solution on measured bits *)

Lemma binary_value_split (s : string) :
  forall a : N,
    binary_value_from a s
    = (a * 2 ^ N.of_nat (String.length s) + binary_value_from 0 s)%N.
Proof.
  induction s as [|c s IH]; intros a.
  - cbn. lia.
  - cbn [binary_value_from String.length].
    rewrite IH, (IH (2 * 0 + _)%N), Nat2N.inj_succ, N.pow_succ_r'. lia.
Qed.

Lemma binary_value_bound (s : string) :
  (binary_value_from 0 s < 2 ^ N.of_nat (String.length s))%N.
Proof.
  induction s as [|c s IH]; [cbn; lia|].
  cbn [binary_value_from String.length].
  rewrite binary_value_split, Nat2N.inj_succ, N.pow_succ_r'.
  destruct (Ascii.eqb c "1"); lia.
Qed.

(** Two strings of bits of one length that denote one number are one
    string. *)
Lemma bits_determined (s : string) :
  forall t : string,
    all_bits s = true -> all_bits t = true ->
    String.length s = String.length t ->
    binary_value s = binary_value t -> s = t.
Proof.
  unfold binary_value.
  induction s as [|c s IH]; intros [|c' t] Hs Ht Hlen Hval;
    try discriminate; [reflexivity|].
  cbn [all_bits] in Hs, Ht.
  apply andb_true_iff in Hs as [Hc Hs]. apply andb_true_iff in Ht as [Hc' Ht].
  cbn [String.length] in Hlen. injection Hlen as Hlen.
  cbn [binary_value_from] in Hval.
  rewrite (binary_value_split s), (binary_value_split t), <- Hlen in Hval.
  pose proof (binary_value_bound s) as Bs.
  pose proof (binary_value_bound t) as Bt. rewrite <- Hlen in Bt.
  unfold is_bit in Hc, Hc'.
  apply orb_true_iff in Hc as [Hc|Hc]; apply Ascii.eqb_eq in Hc; subst c;
    apply orb_true_iff in Hc' as [Hc'|Hc']; apply Ascii.eqb_eq in Hc';
    subst c'; cbn [Ascii.eqb Bool.eqb] in Hval; cbn iota in Hval.
  - f_equal. apply IH; try assumption; lia.
  - exfalso. nia.
  - exfalso. nia.
  - f_equal. apply IH; try assumption; lia.
Qed.

Lemma binary_text_cons (b : Z) (x : list Z) :
  binary_text (b :: x) = slice_from 2 (bin b) ++ binary_text x.
Proof. reflexivity. Qed.

Lemma binary_text_bits (x : list Z) :
  bit_list x ->
  all_bits (binary_text x) = true
  /\ String.length (binary_text x) = List.length x
  /\ forall a : N,
       Z.of_N (binary_value_from a (binary_text x))
       = bits_value_from (Z.of_N a) x.
Proof.
  induction 1 as [|b x Hb _ (IH1 & IH2 & IH3)].
  - repeat split.
  - rewrite binary_text_cons. unfold bits_value_from in *.
    cbn [fold_left List.length].
    destruct Hb as [-> | ->].
    + change (slice_from 2 (bin 0)) with "0".
      cbn [String.append all_bits String.length binary_value_from].
      split; [exact IH1|]. split; [now rewrite IH2|].
      intros a. rewrite IH3. f_equal. cbn [Ascii.eqb Bool.eqb]. lia.
    + change (slice_from 2 (bin 1)) with "1".
      cbn [String.append all_bits String.length binary_value_from].
      split; [exact IH1|]. split; [now rewrite IH2|].
      intros a. rewrite IH3. f_equal. cbn [Ascii.eqb Bool.eqb]. lia.
Qed.

Lemma padded_fits (n : nat) (v : Z) :
  0 <= v < 2 ^ Z.of_nat n -> (1 <= n)%nat -> String.length (padded n v) = n.
Proof.
  intros Hv Hn. rewrite padded_length.
  apply Nat.max_l. exact (bin_digits_fits v n Hv Hn).
Qed.

Lemma recognises (n : nat) (vs : list Z) (x : list Z) :
  (1 <= n)%nat ->
  Forall (fun v => 0 <= v < 2 ^ Z.of_nat n) vs ->
  bit_list x ->
  In (binary_text x) (map (padded n) vs)
  <-> List.length x = n /\ In (bits_value x) vs.
Proof.
  intros Hn Hvs Hx. destruct (binary_text_bits x Hx) as (Hb & Hl & Hv).
  specialize (Hv 0%N). change (Z.of_N 0) with 0 in Hv.
  fold (binary_value (binary_text x)) in Hv. fold (bits_value x) in Hv.
  rewrite Forall_forall in Hvs. split.
  - intros Hin. apply in_map_iff in Hin as (v & Heq & Hin).
    pose proof (Hvs v Hin) as Hrange.
    split.
    + rewrite <- Hl, <- Heq. now apply padded_fits.
    + rewrite <- Hv, <- Heq, padded_value by lia. exact Hin.
  - intros [Hlen Hin]. apply in_map_iff. exists (bits_value x).
    split; [|exact Hin].
    pose proof (Hvs _ Hin) as Hrange.
    apply bits_determined.
    + apply padded_bits.
    + exact Hb.
    + rewrite padded_fits by assumption. now rewrite Hl.
    + apply N2Z.inj. rewrite padded_value by lia. now rewrite Hv.
Qed.

(** X9: for an oracle constructed, with [n_qubits >= 1], from solutions
    that decode to integers in [0, 2 ^ n_qubits), and a list [x] of
    measured bits (each 0 or 1), [is_solution(x)] is 1 exactly when [x]
    has [n_qubits] bits and the number they denote, first bit most
    significant, is one of the solutions. *)
Theorem is_solution_recognises_the_solutions (fs : filesystem)
    (regs : list wire) (n : nat) (path : string) (data : json)
    (ss : list json) (vs : list Z) (o : QuantumOracle)
    (q : list operation) (x : list Z) :
  fs path = Document data ->
  subscript data "solutions" = inr (JArray ss) ->
  Forall2 nonneg_entry ss vs ->
  Forall (fun v => v < 2 ^ Z.of_nat n) vs ->
  (1 <= n)%nat ->
  __init__ fs regs n path = inr o ->
  bit_list x ->
  fst (is_solution x {| self := o; queue := q |}) = inr 1
  <-> List.length x = n /\ In (bits_value x) vs.
Proof.
  intros Hfs Hs Hss Hlt Hn Hinit Hx.
  pose proof (init_solutions fs regs n path o data ss Hinit Hfs Hs) as Hsol.
  destruct (comprehension_nonneg n ss vs Hss) as [Hc Hnn].
  rewrite Hc in Hsol. injection Hsol as Hsol.
  assert (Hrange : Forall (fun v => 0 <= v < 2 ^ Z.of_nat n) vs).
  { rewrite Forall_forall in *. intros v Hv.
    split; [now apply Hnn | now apply Hlt]. }
  rewrite <- (recognises n vs x Hn Hrange Hx).
  rewrite is_solution_run. cbn [fst self]. rewrite <- Hsol.
  fold (binary_text x).
  pose proof (contains_In (map (padded n) vs) (binary_text x)) as Hc'.
  destruct (contains (map (padded n) vs) (binary_text x)).
  - split; [intros _; now apply Hc' | reflexivity].
  - split; [discriminate|]. intros Hin. apply Hc' in Hin. discriminate.
Qed.

Lemma is_solution_recognises_witness :
  fst (is_solution [1; 1]
         {| self := {| input_registers := [0; 1]; n_qubits := 2;
                       marked_states := ["11"]; solutions := ["11"] |};
            queue := [] |}) = inr 1
  <-> List.length [1; 1] = 2%nat /\ In (bits_value [1; 1]) [3].
Proof.
  apply (is_solution_recognises_the_solutions example_fs [0; 1] 2
           "oracle.json" (config ["Mw=="] ["Mw=="]) [JString "Mw=="] [3]).
  - reflexivity.
  - reflexivity.
  - constructor; [split; [reflexivity | lia] | constructor].
  - constructor; [reflexivity | constructor].
  - lia.
  - reflexivity.
  - constructor; [now right | constructor; [now right | constructor]].
Defined.

(** ** When apply_oracle returns and when it raises *)

Lemma skipn_nil (i : nat) (l : list wire) :
  skipn i l = [] -> nth_error l i = None /\ skipn (S i) l = [].
Proof.
  revert l. induction i as [|i IH]; intros l H.
  - cbn in H. subst l. split; reflexivity.
  - destruct l as [|x l]; [split; reflexivity|]. cbn [skipn] in H.
    destruct (IH l H) as [H1 H2]. split; [exact H1 | exact H2].
Qed.

Lemma mbind_raises {A B : Type} (m : method A) (k : A -> method B)
    (ctx : context) (e : exn) :
  fst (m ctx) = inl e -> fst (mbind m k ctx) = inl e.
Proof.
  unfold mbind. destruct (m ctx) as [[e'|a] ctx']; cbn; congruence.
Qed.

Lemma flip_bit_raises (i : nat) (ctx : context) :
  nth_error (input_registers (self ctx)) i = None ->
  flip_bit (i, "0"%char) ctx = (inl IndexError, ctx).
Proof.
  intros Hnth. unfold flip_bit. cbn [Ascii.eqb Bool.eqb].
  unfold mbind, attr, item. rewrite Hnth. reflexivity.
Qed.

Lemma flip_bit_skips (i : nat) (bit : ascii) (ctx : context) :
  Ascii.eqb bit "0" = false -> flip_bit (i, bit) ctx = (inr tt, ctx).
Proof. intros H. unfold flip_bit. now rewrite H. Qed.

Lemma zero_wires_nil (state : string) : zero_wires [] state = [].
Proof. destruct state; reflexivity. Qed.

(** The loop over [enumerate(state)] from position [i] on, whether or
    not the register has a wire for every [0]. *)
Lemma flip_outcome (state : string) :
  forall (i : nat) (ctx : context),
    (zeros_within
       (List.length (skipn i (input_registers (self ctx)))) state = true ->
     for_each (enumerate_from i state) flip_bit ctx
     = (inr tt,
        queued ctx (x_mask (skipn i (input_registers (self ctx))) state)))
    /\ (zeros_within
          (List.length (skipn i (input_registers (self ctx)))) state
        = false ->
        fst (for_each (enumerate_from i state) flip_bit ctx)
        = inl IndexError).
Proof.
  induction state as [|bit state IH]; intros i ctx.
  - split; [|discriminate]. intros _.
    cbn [enumerate_from for_each]. unfold ret, x_mask. cbn [zero_wires map].
    now rewrite queued_nil.
  - cbn [enumerate_from for_each zeros_within].
    destruct (skipn i (input_registers (self ctx))) as [|w rest] eqn:E.
    + destruct (skipn_nil _ _ E) as [Hnth Hrest]. cbn [List.length].
      specialize (IH (S i) ctx). rewrite Hrest in IH. cbn [List.length] in IH.
      destruct (Ascii.eqb bit "0") eqn:Eb.
      * apply Ascii.eqb_eq in Eb. subst bit. cbn [negb andb].
        split; [discriminate|]. intros _.
        apply mbind_raises. now rewrite flip_bit_raises.
      * cbn [negb andb]. unfold mbind.
        rewrite (flip_bit_skips i bit ctx Eb).
        unfold x_mask in *. cbn [zero_wires].
        rewrite zero_wires_nil in IH. exact IH.
    + destruct (skipn_cons _ _ _ _ E) as [Hnth Hrest]. cbn [List.length].
      unfold mbind. rewrite (flip_bit_run i bit w ctx Hnth).
      specialize (IH (S i)
                    (queued ctx (if Ascii.eqb bit "0" then [PauliX w]
                                 else []))).
      cbn [queued self] in IH. rewrite Hrest in IH.
      destruct IH as [IHok IHbad]. split.
      * intros Hz. rewrite (IHok Hz). unfold x_mask. cbn [zero_wires].
        rewrite queued_queued. destruct (Ascii.eqb bit "0"); reflexivity.
      * exact IHbad.
Qed.

Lemma flip_zeros_outcome (state : string) (ctx : context) :
  (zeros_within (List.length (input_registers (self ctx))) state = true ->
   flip_zeros state ctx
   = (inr tt, queued ctx (x_mask (input_registers (self ctx)) state)))
  /\ (zeros_within (List.length (input_registers (self ctx))) state = false ->
      fst (flip_zeros state ctx) = inl IndexError).
Proof. exact (flip_outcome state 0 ctx). Qed.

Lemma mark_state_outcome (controls : list wire) (target : wire)
    (state : string) (ctx : context) :
  input_registers (self ctx) = (controls ++ [target])%list ->
  (zeros_within (List.length (input_registers (self ctx))) state = true ->
   mark_state state ctx
   = (inr tt, queued ctx (state_ops (input_registers (self ctx)) state)))
  /\ (zeros_within (List.length (input_registers (self ctx))) state = false ->
      fst (mark_state state ctx) = inl IndexError).
Proof.
  intros Hregs. destruct (flip_zeros_outcome state ctx) as [Hok Hbad]. split.
  - intros Hz. unfold mark_state.
    rewrite (mbind_run _ _ _ _ _ (Hok Hz)).
    rewrite (mbind_run _ _ _ _ _ (attr_run input_registers _)).
    cbn [queued self]. rewrite Hregs.
    destruct (last_item_run controls target
                (queued ctx (x_mask (controls ++ [target]) state)))
      as (Hlast & Hl & Hr).
    rewrite (mbind_run _ _ _ _ _ Hlast).
    rewrite (mbind_run _ _ _ _ _ (emit_run _ _)).
    rewrite (proj1 (flip_zeros_outcome state _))
      by (cbn [queued self]; exact Hz).
    rewrite !queued_queued. cbn [queued self].
    unfold state_ops, controlled_z. rewrite Hregs, Hl, Hr, <- ?app_assoc.
    reflexivity.
  - intros Hz. unfold mark_state. apply mbind_raises. exact (Hbad Hz).
Qed.

Lemma states_outcome (controls : list wire) (target : wire)
    (states : list string) :
  forall ctx : context,
    input_registers (self ctx) = (controls ++ [target])%list ->
    (forallb (zeros_within (List.length (input_registers (self ctx)))) states
     = true ->
     for_each states mark_state ctx
     = (inr tt,
        queued ctx
          (flat_map (state_ops (input_registers (self ctx))) states)))
    /\ (forallb (zeros_within (List.length (input_registers (self ctx))))
                states = false ->
        fst (for_each states mark_state ctx) = inl IndexError).
Proof.
  induction states as [|state states IH]; intros ctx Hregs.
  - split; [|discriminate]. intros _. cbn [for_each flat_map]. unfold ret.
    now rewrite queued_nil.
  - cbn [for_each forallb].
    destruct (mark_state_outcome controls target state ctx Hregs)
      as [Hok Hbad].
    destruct (zeros_within (List.length (input_registers (self ctx))) state).
    + cbn [andb]. unfold mbind. rewrite (Hok eq_refl).
      specialize (IH (queued ctx
                        (state_ops (input_registers (self ctx)) state))
                     Hregs).
      cbn [queued self] in IH. destruct IH as [IHok IHbad]. split.
      * intros Hz. cbn [queued self]. rewrite (IHok Hz).
        cbn [flat_map]. now rewrite queued_queued.
      * exact IHbad.
    + cbn [andb]. split; [discriminate|]. intros _.
      apply mbind_raises. exact (Hbad eq_refl).
Qed.

Lemma flip_empty_register (state : string) :
  forall (i : nat) (ctx : context),
    input_registers (self ctx) = [] ->
    for_each (enumerate_from i state) flip_bit ctx
    = (if zeros_within 0 state then inr tt else inl IndexError, ctx).
Proof.
  induction state as [|bit state IH]; intros i ctx Hregs; [reflexivity|].
  cbn [enumerate_from for_each zeros_within]. unfold mbind.
  destruct (Ascii.eqb bit "0") eqn:Eb.
  - apply Ascii.eqb_eq in Eb. subst bit.
    rewrite flip_bit_raises; [reflexivity|].
    rewrite Hregs. now destruct i.
  - rewrite (flip_bit_skips i bit ctx Eb). cbn [negb andb].
    apply IH, Hregs.
Qed.

Lemma mark_state_empty_register (state : string) (ctx : context) :
  input_registers (self ctx) = [] ->
  mark_state state ctx = (inl IndexError, ctx).
Proof.
  intros Hregs. unfold mark_state, flip_zeros, enumerate, mbind at 1.
  rewrite (flip_empty_register state 0 ctx Hregs).
  destruct (zeros_within 0 state); [|reflexivity].
  unfold mbind, attr. now rewrite Hregs.
Qed.

Lemma apply_oracle_steps (ctx : context) :
  apply_oracle ctx
  = (for_each (marked_states (self ctx)) mark_state >>
     registers <~ attr input_registers ;;
     n <~ attr n_qubits ;;
     emit (Adder (-1) registers (2 ^ Z.of_nat n)))
      (queued ctx [Adder 1 (input_registers (self ctx))
                         (2 ^ Z.of_nat (n_qubits (self ctx)))]).
Proof. reflexivity. Qed.

Lemma apply_oracle_after_loop (ctx ctx' : context) (r : result unit) :
  for_each (marked_states (self ctx)) mark_state
    (queued ctx [Adder 1 (input_registers (self ctx))
                       (2 ^ Z.of_nat (n_qubits (self ctx)))])
  = (r, ctx') ->
  apply_oracle ctx
  = match r with
    | inl e => (inl e, ctx')
    | inr _ =>
        (inr tt,
         queued ctx' [Adder (-1) (input_registers (self ctx'))
                            (2 ^ Z.of_nat (n_qubits (self ctx')))])
    end.
Proof.
  intros H. rewrite apply_oracle_steps. unfold mbind at 1. rewrite H.
  destruct r as [e|[]]; reflexivity.
Qed.

Lemma forallb_zeros_fits (o : QuantumOracle) :
  fits o ->
  forallb (zeros_within (List.length (input_registers o))) (marked_states o)
  = true.
Proof.
  unfold fits. intros H. apply forallb_forall. rewrite Forall_forall in H.
  intros state Hin. specialize (H state Hin).
  generalize dependent (List.length (input_registers o)). clear.
  induction state as [|bit state IH]; intros k Hk; [reflexivity|].
  cbn [String.length] in Hk. destruct k as [|k]; [lia|].
  cbn [zeros_within]. apply IH. lia.
Qed.

(** The outcome of a call, by cases on the register and the states. *)
Lemma apply_oracle_outcome (ctx : context) :
  (marked_states (self ctx) = []
   \/ (input_registers (self ctx) <> []
       /\ forallb (zeros_within (List.length (input_registers (self ctx))))
                  (marked_states (self ctx)) = true)) ->
  apply_oracle ctx = (inr tt, queued ctx (oracle_ops (self ctx))).
Proof.
  intros H.
  assert (Hloop :
    for_each (marked_states (self ctx)) mark_state
      (queued ctx [Adder 1 (input_registers (self ctx))
                         (2 ^ Z.of_nat (n_qubits (self ctx)))])
    = (inr tt,
       queued
         (queued ctx [Adder 1 (input_registers (self ctx))
                            (2 ^ Z.of_nat (n_qubits (self ctx)))])
         (flat_map (state_ops (input_registers (self ctx)))
                   (marked_states (self ctx))))).
  { destruct H as [Hnil | [Hne Hz]].
    - rewrite Hnil. cbn [for_each flat_map]. unfold ret.
      now rewrite queued_nil.
    - destruct (exists_last Hne) as (controls & target & Hregs).
      exact (proj1 (states_outcome controls target (marked_states (self ctx))
                      (queued ctx _) Hregs) Hz). }
  rewrite (apply_oracle_after_loop ctx _ _ Hloop).
  rewrite !queued_queued. cbn [queued self]. unfold oracle_ops.
  cbn [app]. reflexivity.
Qed.

Lemma apply_oracle_failure (ctx : context) :
  marked_states (self ctx) <> [] ->
  (input_registers (self ctx) = []
   \/ forallb (zeros_within (List.length (input_registers (self ctx))))
              (marked_states (self ctx)) = false) ->
  fst (apply_oracle ctx) = inl IndexError.
Proof.
  intros Hne H. rewrite apply_oracle_steps. apply mbind_raises.
  destruct (input_registers (self ctx)) as [|w regs] eqn:Eregs.
  - destruct (marked_states (self ctx)) as [|state states]; [congruence|].
    cbn [for_each]. apply mbind_raises.
    now rewrite mark_state_empty_register.
  - destruct H as [H|H]; [discriminate|].
    assert (Hcons : w :: regs <> []) by discriminate.
    destruct (exists_last Hcons) as (controls & target & Hregs).
    rewrite <- Eregs in Hregs, H.
    exact (proj2 (states_outcome controls target _
                    (queued ctx _) Hregs) H).
Qed.

Lemma apply_oracle_cases (ctx : context) :
  (marked_states (self ctx) = []
   \/ (input_registers (self ctx) <> []
       /\ forallb (zeros_within (List.length (input_registers (self ctx))))
                  (marked_states (self ctx)) = true))
  \/ (marked_states (self ctx) <> []
      /\ (input_registers (self ctx) = []
          \/ forallb
               (zeros_within (List.length (input_registers (self ctx))))
               (marked_states (self ctx)) = false)).
Proof.
  destruct (marked_states (self ctx)) as [|s l]; [left; now left|].
  destruct (input_registers (self ctx)) as [|w r].
  - right. split; [discriminate | now left].
  - destruct (forallb (zeros_within (List.length (w :: r))) (s :: l)).
    + left. right. split; [discriminate | reflexivity].
    + right. split; [discriminate | now right].
Qed.















(** X13: nothing is remembered between calls: when a call returns, a
    second call returns too and records the same operations again, after
    those of the first. *)
Theorem two_calls_record_twice (ctx : context) :
  fst (apply_oracle ctx) = inr tt ->
  (apply_oracle >> apply_oracle) ctx
  = (inr tt,
     queued ctx (oracle_ops (self ctx) ++ oracle_ops (self ctx))).
Proof.
  intros Hret.
  destruct (apply_oracle_cases ctx) as [Hcond | [Hne Hbad]];
    [|rewrite (apply_oracle_failure ctx Hne Hbad) in Hret; discriminate].
  rewrite (mbind_run _ _ _ _ _ (apply_oracle_outcome ctx Hcond)).
  rewrite (apply_oracle_outcome (queued ctx (oracle_ops (self ctx))) Hcond).
  now rewrite queued_queued.
Qed.

Lemma two_calls_witness :
  (apply_oracle >> apply_oracle) {| self := example_oracle; queue := [] |}
  = (inr tt,
     queued {| self := example_oracle; queue := [] |}
       (oracle_ops example_oracle ++ oracle_ops example_oracle)).
Proof.
  exact (two_calls_record_twice {| self := example_oracle; queue := [] |}
           eq_refl).
Defined.

(** ** Wires *)

Lemma zero_wires_incl (registers : list wire) (state : string) :
  incl (zero_wires registers state) registers.
Proof.
  intros w Hw. apply zero_wires_positions in Hw as (i & _ & Hnth).
  exact (nth_error_In _ _ Hnth).
Qed.

Lemma state_ops_wires (registers : list wire) (state : string) :
  registers <> [] ->
  Forall (fun op => incl (op_wires op) registers)
         (state_ops registers state).
Proof.
  intros Hne.
  assert (Hmask : Forall (fun op => incl (op_wires op) registers)
                         (x_mask registers state)).
  { unfold x_mask. apply Forall_map. apply Forall_forall. intros w Hw.
    cbn [op_wires]. intros w' [<-|[]]. now apply zero_wires_incl in Hw. }
  unfold state_ops. apply Forall_app. split; [exact Hmask|].
  constructor; [|exact Hmask].
  destruct (exists_last Hne) as (controls & target & ->).
  unfold controlled_z. rewrite last_last, removelast_last.
  cbn [op_wires]. apply incl_refl.
Qed.

(** X14: a call that returns has recorded operations on wires of the
    register only. *)
Theorem recorded_operations_stay_on_the_register (ctx : context) :
  fst (apply_oracle ctx) = inr tt ->
  exists ops : list operation,
    snd (apply_oracle ctx) = queued ctx ops
    /\ Forall (fun op => incl (op_wires op) (input_registers (self ctx)))
              ops.
Proof.
  intros Hret.
  destruct (apply_oracle_cases ctx) as [Hcond | [Hne Hbad]];
    [|rewrite (apply_oracle_failure ctx Hne Hbad) in Hret; discriminate].
  rewrite (apply_oracle_outcome ctx Hcond). cbn [snd].
  exists (oracle_ops (self ctx)). split; [reflexivity|].
  unfold oracle_ops. constructor; [apply incl_refl|].
  apply Forall_app. split; [|constructor; [apply incl_refl | constructor]].
  destruct Hcond as [-> | [Hne _]]; [constructor|].
  apply Forall_flat_map, Forall_forall. intros state _.
  now apply state_ops_wires.
Qed.

Lemma recorded_operations_witness :
  exists ops : list operation,
    snd (apply_oracle {| self := example_oracle; queue := [] |})
    = queued {| self := example_oracle; queue := [] |} ops
    /\ Forall (fun op => incl (op_wires op) [0; 1]) ops.
Proof.
  exact (recorded_operations_stay_on_the_register
           {| self := example_oracle; queue := [] |} eq_refl).
Defined.

(** ** Arguments the constructor never checks *)

Lemma comprehension_decode (n : nat) (es : list json) :
  comprehension (_decode_base64 n) es
  = (vs <- comprehension decoded_int es ;;
     inr (map (fun v => zfill n (slice_from 2 (bin v))) vs)).
Proof.
  induction es as [|e es IH]; [reflexivity|].
  cbn [comprehension]. rewrite IH. unfold _decode_base64.
  destruct (decoded_int e) as [err|v]; [reflexivity|]. cbn [bind].
  destruct (comprehension decoded_int es) as [err|vs]; reflexivity.
Qed.

(** X15: neither [input_registers] nor [n_qubits] is checked: a
    construction that raises raises the same exception with any other
    register and qubit count. *)
Theorem failure_ignores_register_and_width (fs : filesystem)
    (regs regs' : list wire) (n n' : nat) (path : string) (e : exn) :
  __init__ fs regs n path = inl e -> __init__ fs regs' n' path = inl e.
Proof.
  unfold __init__, _load_config.
  destruct (json_load fs path) as [err|data]; [exact (fun H => H)|].
  cbn [bind].
  destruct (subscript data "marked_states") as [err|v];
    [exact (fun H => H)|].
  cbn [bind]. destruct (iterate v) as [err|ms]; [exact (fun H => H)|].
  cbn [bind]. rewrite !comprehension_decode.
  destruct (comprehension decoded_int ms) as [err|vm]; [exact (fun H => H)|].
  cbn [bind].
  destruct (subscript data "solutions") as [err|w]; [exact (fun H => H)|].
  cbn [bind]. destruct (iterate w) as [err|ss]; [exact (fun H => H)|].
  cbn [bind]. rewrite !comprehension_decode.
  destruct (comprehension decoded_int ss) as [err|vs]; [exact (fun H => H)|].
  cbn [bind]. discriminate.
Qed.

Lemma failure_ignores_witness :
  __init__ shapes_fs [] 7 "nomarked.json" = inl KeyError.
Proof.
  exact (failure_ignores_register_and_width shapes_fs [0; 1] [] 2 7
           "nomarked.json" KeyError eq_refl).
Defined.
